(** * Spirit-Box: the ghost hunting journal

    A shallow embedding of [commands/journal.ts]: the evidence catalogue
    [GHOSTS], the [Journal] class ([possibleGhosts], [asComponents]) and the
    [CommandContext] class that drives one journal message (constructor,
    collectors, idle timeout, termination), followed by the properties the
    specification states about them. *)

From Stdlib Require Import List String Ascii ZArith Bool Lia.
Import ListNotations.

Local Open Scope string_scope.
Local Open Scope Z_scope.
Local Open Scope list_scope.

(** ** JavaScript values used by the journal *)

(** A JavaScript [number] as the journal uses it: an integer, or [NaN] (what
    [parseInt] returns when it finds no digit).  Integers are exact here; the
    journal only ever compares them with, and subtracts them from, counts not
    above 7. *)
Inductive number : Type :=
  | NaN
  | Num (z : Z).

(** [a - b] *)
Definition num_sub (a b : number) : number :=
  match a, b with
  | Num x, Num y => Num (x - y)
  | _, _ => NaN
  end.

(** [a > b]: false as soon as one side is [NaN]. *)
Definition num_gtb (a b : number) : bool :=
  match a, b with
  | Num x, Num y => y <? x
  | _, _ => false
  end.

(** [a < b]: false as soon as one side is [NaN]. *)
Definition num_ltb (a b : number) : bool :=
  match a, b with
  | Num x, Num y => x <? y
  | _, _ => false
  end.

(** [array.length] *)
Definition len {A : Type} (l : list A) : number := Num (Z.of_nat (List.length l)).

(** What a function body yields: a value, or a thrown [Error]. *)
Inductive completion (A : Type) : Type :=
  | Return (a : A)
  | Throw (message : string).
Arguments Return {A} a.
Arguments Throw {A} message.

(** ** Evidence identifiers and states *)

Inductive EvidenceID : Type :=
  | dots | emf | freezing | orb | writing | box | uv.

Scheme Equality for EvidenceID.

(** IDs for all evidence types. *)
Definition EVIDENCE_IDS : list EvidenceID :=
  [dots; emf; freezing; orb; writing; box; uv].

(** The string behind each identifier (the button custom ids). *)
Definition id_string (id : EvidenceID) : string :=
  match id with
  | dots => "dots" | emf => "emf" | freezing => "freezing" | orb => "orb"
  | writing => "writing" | box => "box" | uv => "uv"
  end.

(** Maximum number of possible evidences, not considering difficulty or fake
    evidences. *)
Definition MAX_EVIDENCES : number := Num 3.

(** States an evidence can be in. *)
Inductive EvidenceState : Type :=
  | PRESENT
  | INDEFINITE
  | ABSENT.

Scheme Equality for EvidenceState.

(** [array.includes(x)] on evidence ids. *)
Definition includes (array : list EvidenceID) (x : EvidenceID) : bool :=
  existsb (EvidenceID_beq x) array.

(** [_.difference(array, values)], where [values] may hold [undefined]
    ([None]), which equals no evidence id. *)
Definition difference (array : list EvidenceID)
    (values : list (option EvidenceID)) : list EvidenceID :=
  filter
    (fun e =>
       negb (existsb
               (fun v => match v with
                         | Some x => EvidenceID_beq e x
                         | None => false
                         end) values))
    array.

(** ** The catalogue *)

Record Ghost : Type := mkGhost {
  (** Name of the ghost *)
  name : string;
  (** Evidences the ghost has *)
  ghostEvidences : list EvidenceID;
  (** Evidence that is always present *)
  guaranteed : option EvidenceID;
  (** Evidence that is guaranteed and is not counted for difficulty purposes *)
  fake : option EvidenceID
}.

Definition plain (n : string) (es : list EvidenceID) : Ghost :=
  mkGhost n es None None.

Definition Hantu : Ghost :=
  mkGhost "Hantu" [uv; orb; freezing] (Some freezing) None.

Definition TheMimic : Ghost :=
  mkGhost "The Mimic" [box; uv; freezing] None (Some orb).

(** All ghosts in the game and their evidences. *)
Definition GHOSTS : list Ghost :=
  [ plain "Spirit" [emf; box; writing];
    plain "Wraith" [emf; box; dots];
    plain "Phantom" [box; uv; dots];
    plain "Poltergeist" [box; uv; writing];
    plain "Banshee" [uv; orb; dots];
    plain "Jinn" [emf; uv; freezing];
    plain "Mare" [box; orb; writing];
    plain "Revenant" [orb; writing; freezing];
    plain "Shade" [emf; writing; freezing];
    plain "Demon" [uv; writing; freezing];
    plain "Yurei" [orb; freezing; dots];
    plain "Oni" [emf; freezing; dots];
    plain "Yokai" [box; orb; dots];
    Hantu;
    mkGhost "Goryo" [emf; uv; dots] (Some dots) None;
    plain "Myling" [emf; uv; writing];
    plain "Onryo" [box; orb; freezing];
    plain "The Twins" [emf; box; freezing];
    plain "Raiju" [emf; orb; dots];
    mkGhost "Obake" [emf; uv; orb] (Some uv) None;
    TheMimic;
    mkGhost "Moroi" [box; writing; freezing] (Some box) None;
    mkGhost "Deogen" [box; writing; dots] (Some box) None;
    plain "Thaye" [orb; writing; dots] ].

(** ** The journal *)

(** The object behind [Journal.evidences]: one state per evidence id, with
    the keys in the order of the class's initialiser. *)
Record EvidenceStates : Type := mkStates {
  s_dots : EvidenceState;
  s_emf : EvidenceState;
  s_uv : EvidenceState;
  s_freezing : EvidenceState;
  s_orb : EvidenceState;
  s_writing : EvidenceState;
  s_box : EvidenceState
}.

(** [evidences[id]] *)
Definition get (m : EvidenceStates) (id : EvidenceID) : EvidenceState :=
  match id with
  | dots => s_dots m | emf => s_emf m | uv => s_uv m
  | freezing => s_freezing m | orb => s_orb m | writing => s_writing m
  | box => s_box m
  end.

(** [evidences[id] = v] *)
Definition set (m : EvidenceStates) (id : EvidenceID) (v : EvidenceState)
    : EvidenceStates :=
  match id with
  | dots => mkStates v (s_emf m) (s_uv m) (s_freezing m) (s_orb m) (s_writing m) (s_box m)
  | emf => mkStates (s_dots m) v (s_uv m) (s_freezing m) (s_orb m) (s_writing m) (s_box m)
  | uv => mkStates (s_dots m) (s_emf m) v (s_freezing m) (s_orb m) (s_writing m) (s_box m)
  | freezing => mkStates (s_dots m) (s_emf m) (s_uv m) v (s_orb m) (s_writing m) (s_box m)
  | orb => mkStates (s_dots m) (s_emf m) (s_uv m) (s_freezing m) v (s_writing m) (s_box m)
  | writing => mkStates (s_dots m) (s_emf m) (s_uv m) (s_freezing m) (s_orb m) v (s_box m)
  | box => mkStates (s_dots m) (s_emf m) (s_uv m) (s_freezing m) (s_orb m) (s_writing m) v
  end.

(** [Object.entries(evidences)] *)
Definition entries (m : EvidenceStates) : list (EvidenceID * EvidenceState) :=
  [ (dots, s_dots m); (emf, s_emf m); (uv, s_uv m); (freezing, s_freezing m);
    (orb, s_orb m); (writing, s_writing m); (box, s_box m) ].

(** [Object.values(evidences)] *)
Definition values (m : EvidenceStates) : list EvidenceState :=
  map snd (entries m).

(** Each evidence defaults to [INDEFINITE]. *)
Definition all_indefinite : EvidenceStates :=
  mkStates INDEFINITE INDEFINITE INDEFINITE INDEFINITE INDEFINITE INDEFINITE
    INDEFINITE.

(** Represents a Phasmophobia journal for evidence tracking. *)
Record Journal : Type := mkJournal {
  (** Maps an evidence id to its found status. *)
  evidences : EvidenceStates;
  (** Number of evidences provided by the difficulty. *)
  availableEvidences : number
}.

(** [new Journal()] *)
Definition new_Journal : Journal := mkJournal all_indefinite (Num 3).

(** The ids whose state is [found], in key order. *)
Definition ids_in_state (found : EvidenceState) (this : Journal)
    : list EvidenceID :=
  map fst
    (filter (fun entry => EvidenceState_beq (snd entry) found)
       (entries (evidences this))).

Definition present (this : Journal) : list EvidenceID :=
  ids_in_state PRESENT this.

Definition absent (this : Journal) : list EvidenceID :=
  ids_in_state ABSENT this.

Definition presentWithoutFake (this : Journal) (g : Ghost) : list EvidenceID :=
  difference (present this) [fake g].

(** Ghosts that don't have one or more of the found evidences, ignoring fake
    evidences, are discarded: the [for] loop with its early [return false]. *)
Definition has_found_evidences (this : Journal) (g : Ghost) : bool :=
  forallb (includes (ghostEvidences g)) (presentWithoutFake this g).

(** [presentWithoutFake.length > this.availableEvidences] *)
Definition too_many_found (this : Journal) (g : Ghost) : bool :=
  num_gtb (len (presentWithoutFake this g)) (availableEvidences this).

(** More absent evidences than evidences disabled by the difficulty. *)
Definition too_many_absent (this : Journal) (g : Ghost) : bool :=
  num_gtb
    (len (filter (includes (ghostEvidences g)) (absent this)))
    (num_sub MAX_EVIDENCES (availableEvidences this)).

(** [obtainableRemainingEvidences]: every present state is counted here, the
    fake evidence included. *)
Definition obtainableRemainingEvidences (this : Journal) : number :=
  num_sub (availableEvidences this)
    (len (filter (fun found => EvidenceState_beq found PRESENT)
            (values (evidences this)))).

(** The guaranteed evidence is absent or unobtainable. *)
Definition guaranteed_unobtainable (this : Journal) (g : Ghost) : bool :=
  match guaranteed g with
  | Some gu =>
      let isAbsent := EvidenceState_beq (get (evidences this) gu) ABSENT in
      let isPresent := EvidenceState_beq (get (evidences this) gu) PRESENT in
      isAbsent
      || (negb isPresent
          && num_ltb (obtainableRemainingEvidences this) (Num 1))
  | None => false
  end.

(** [fake && absent.includes(fake)] *)
Definition fake_absent (this : Journal) (g : Ghost) : bool :=
  match fake g with
  | Some f => includes (absent this) f
  | None => false
  end.

(** The callback [possibleGhosts] filters the catalogue with. *)
Definition possible (this : Journal) (g : Ghost) : bool :=
  if negb (has_found_evidences this g) then false
  else if too_many_found this g then false
  else if too_many_absent this g then false
  else if guaranteed_unobtainable this g then false
  else if fake_absent this g then false
  else true.

(** Returns the names of the possible ghosts, given the evidences found. *)
Definition possibleGhosts (this : Journal) : list string :=
  map name (filter (possible this) GHOSTS).

(** ** The journal as Discord components *)

(** How many buttons there can be in an action row. *)
Definition MAX_BUTTONS_PER_ACTION_ROW : Z := 5.

(** How many action rows there can be in a message. *)
Definition MAX_ACTION_ROWS_PER_MESSAGE : Z := 5.

Inductive ButtonStyle : Type :=
  | Primary
  | Secondary
  | Danger.

Record ButtonBuilder : Type := mkButton {
  customId : EvidenceID;
  label : string;
  style : ButtonStyle
}.

Record StringSelectMenuOptionBuilder : Type := mkOption {
  option_label : string;
  option_description : string;
  option_value : string;
  option_default : bool
}.

Record StringSelectMenuBuilder : Type := mkSelect {
  select_customId : string;
  placeholder : string;
  options : list StringSelectMenuOptionBuilder
}.

Inductive Component : Type :=
  | SelectMenu (menu : StringSelectMenuBuilder)
  | Button (button : ButtonBuilder).

Record ActionRowBuilder : Type := mkRow {
  components : list Component
}.

(** Labels for each evidence id. *)
Definition LABELS (id : EvidenceID) : string :=
  match id with
  | dots => "D.O.T.S Projector"
  | emf => "EMF Level 5"
  | uv => "Ultraviolet"
  | freezing => "Freezing Temperatures"
  | orb => "Ghost Orb"
  | writing => "Ghost Writing"
  | box => "Spirit Box"
  end.

(** The three options of the evidence count menu, none selected yet. *)
Definition evidence_count_options : list StringSelectMenuOptionBuilder :=
  [ mkOption "3 evidences" "The ghost can show up to three evidences." "3" false;
    mkOption "2 evidences" "The ghost can show up to two evidences." "2" false;
    mkOption "1 evidence" "The ghost can show up to one evidence." "1" false ].

(** [array[index]] for a numeric index: [undefined] ([None]) for [NaN], a
    negative index or one past the end. *)
Definition at_index {A : Type} (array : list A) (index : number) : option A :=
  match index with
  | Num z => if z <? 0 then None else nth_error array (Z.to_nat z)
  | NaN => None
  end.

(** The array after the element at position [n] was replaced. *)
Fixpoint replace_at {A : Type} (array : list A) (n : nat) (a : A) : list A :=
  match array, n with
  | [], _ => []
  | _ :: rest, O => a :: rest
  | x :: rest, S n' => x :: replace_at rest n' a
  end.

(** [options[index].setDefault(true)]: the option is changed in place; a
    [TypeError] is thrown when [options[index]] is [undefined]. *)
Definition setDefault_at (opts : list StringSelectMenuOptionBuilder)
    (index : number) : completion (list StringSelectMenuOptionBuilder) :=
  match at_index opts index, index with
  | Some o, Num z =>
      Return
        (replace_at opts (Z.to_nat z)
           (mkOption (option_label o) (option_description o) (option_value o)
              true))
  | _, _ => Throw "TypeError: Cannot read properties of undefined"
  end.

Fixpoint chunk_loop {A : Type} (fuel size : nat) (array : list A)
    : list (list A) :=
  match fuel, array with
  | O, _ => []
  | _, [] => []
  | S fuel', _ => firstn size array :: chunk_loop fuel' size (skipn size array)
  end.

(** [_.chunk(array, size)]: groups of [size] elements, the last one shorter
    when the array does not divide evenly; empty when [size < 1]. *)
Definition chunk {A : Type} (array : list A) (size : Z) : list (list A) :=
  if size <? 1 then []
  else chunk_loop (List.length array) (Z.to_nat size) array.

(** The button of one evidence id. *)
Definition evidence_button (this : Journal) (id : EvidenceID) : ButtonBuilder :=
  mkButton id (LABELS id)
    (if EvidenceState_beq (get (evidences this) id) PRESENT then Primary
     else if EvidenceState_beq (get (evidences this) id) INDEFINITE
          then Secondary
          else Danger).

(** Creates a view of the journal as Discord components. *)
Definition asComponents (this : Journal) : completion (list ActionRowBuilder) :=
  match
    setDefault_at evidence_count_options
      (num_sub MAX_EVIDENCES (availableEvidences this))
  with
  | Throw e => Throw e
  | Return opts =>
      let evidenceCountSelect :=
        mkSelect "evidence_count" "Evidence count" opts in
      let rows := [mkRow [SelectMenu evidenceCountSelect]] in
      let buttons := map (evidence_button this) EVIDENCE_IDS in
      let buttonRows :=
        map (fun row => mkRow (map Button row))
          (chunk buttons MAX_BUTTONS_PER_ACTION_ROW) in
      let rows := rows ++ buttonRows in
      if num_gtb (len rows) (Num MAX_ACTION_ROWS_PER_MESSAGE)
      then Throw "Too many rows"
      else Return rows
  end.

(** ** The embed *)

Inductive Color : Type :=
  | Blurple
  | Red.

Record EmbedBuilder : Type := mkEmbed {
  title : string;
  description : string;
  color : Color;
  field_name : string;
  field_value : string
}.

(** The zero width space (U+200B, as UTF-8) the empty texts are made of. *)
Definition ZWSP : string :=
  String (ascii_of_nat 226) (String (ascii_of_nat 128)
    (String (ascii_of_nat 139) EmptyString)).

(** The embed for a journal: [IDLE_TIME / 3600_000] is 1, so the description
    reads "1.0 hour". *)
Definition journal_embed (j : Journal) : EmbedBuilder :=
  let possibleGhosts := possibleGhosts j in
  let describe := mkEmbed "Ghost hunting journal"
                    "(Disabled after ~1.0 hour of inactivity)" in
  if num_gtb (len possibleGhosts) (Num 0)
  then describe Blurple "Possible ghosts" (String.concat ", " possibleGhosts)
  else describe Red "No possible ghosts" ZWSP.

(** ** [parseInt] *)

Definition is_whitespace (c : ascii) : bool :=
  let n := nat_of_ascii c in
  ((9 <=? n) && (n <=? 13))%nat || (n =? 32)%nat.

Fixpoint trim_start (s : string) : string :=
  match s with
  | String c rest => if is_whitespace c then trim_start rest else s
  | EmptyString => s
  end.

(** The value of a character as a digit, whatever the radix. *)
Definition digit_of (c : ascii) : option Z :=
  let n := Z.of_nat (nat_of_ascii c) in
  if (48 <=? n) && (n <=? 57) then Some (n - 48)
  else if (97 <=? n) && (n <=? 122) then Some (n - 87)
  else if (65 <=? n) && (n <=? 90) then Some (n - 55)
  else None.

(** Reads digits of the radix up to the first character that is not one;
    [acc] is [None] as long as no digit was read. *)
Fixpoint parse_digits (radix : Z) (s : string) (acc : option Z) : option Z :=
  match s with
  | String c rest =>
      match digit_of c with
      | Some d =>
          if d <? radix
          then parse_digits radix rest
                 (Some (radix * match acc with Some a => a | None => 0 end + d))
          else acc
      | None => acc
      end
  | EmptyString => acc
  end.

(** [parseInt(string)] without a radix: leading white space, a sign, a [0x]
    prefix for hexadecimal, then digits; [NaN] when there is no digit.  The
    white space is the ASCII one and the integer read is exact (JavaScript
    rounds it to a double above 2^53). *)
Definition parseInt (input : string) : number :=
  let s := trim_start input in
  let '(sign, s) :=
    match s with
    | String "-" rest => (-1, rest)
    | String "+" rest => (1, rest)
    | _ => (1, s)
    end in
  let '(radix, s) :=
    match s with
    | String "0" (String "x" rest) => (16, rest)
    | String "0" (String "X" rest) => (16, rest)
    | _ => (10, s)
    end in
  match parse_digits radix s None with
  | Some n => Num (sign * n)
  | None => NaN
  end.

(** ** The command context *)

(** The message the journal lives in. *)
Record Message : Type := mkMessage {
  message_id : string
}.

Inductive ComponentType : Type :=
  | ButtonType
  | StringSelectType.

Scheme Equality for ComponentType.

(** An interaction collector: what it listens to, and whether [stop] was
    called on it. *)
Record InteractionCollector : Type := mkCollector {
  componentType : ComponentType;
  ended : bool
}.

Definition stop (c : InteractionCollector) : InteractionCollector :=
  mkCollector (componentType c) true.

(** A timer: the time (in milliseconds) at which it fires. *)
Record Timeout : Type := mkTimeout {
  deadline : Z
}.

(** Context for the journal message and its interactions.  The fields are the
    private fields of the class; an unset field is [None]. *)
Record CommandContext : Type := mkContext {
  (** IDs of the users that can interact with this context. *)
  allowedUserIDs_ : option (list string);
  (** Evidences collected in this context. *)
  evidences_ : option Journal;
  (** Message used by this context. *)
  message_ : option Message;
  (** Collectors used by this context. *)
  collectors_ : option (list InteractionCollector);
  idleTimeout_ : option Timeout;
  (** Whether the context was terminated. *)
  terminated_ : bool
}.

(** The fields as the class declares them. *)
Definition fresh_context : CommandContext :=
  mkContext None None None None None false.

(** How long it takes for the journal to close after the last interaction. *)
Definition IDLE_TIME : Z := 3600000.

(** What the context asks of Discord. *)
Inductive Effect : Type :=
  (** [interaction.reply] with an ephemeral text *)
  | ReplyEphemeral (content : string)
  (** [interaction.reply] with the journal *)
  | ReplyJournal (embed : EmbedBuilder) (rows : list ActionRowBuilder)
  (** [interaction.update] with the journal *)
  | UpdateJournal (embed : EmbedBuilder) (rows : list ActionRowBuilder)
  (** [message.delete] *)
  | DeleteMessage (m : Message).

(** A method of the context: it reads and writes the fields, calls Discord,
    and returns or throws. *)
Definition Method (A : Type) : Type :=
  CommandContext -> completion A * CommandContext * list Effect.

Definition ret {A : Type} (a : A) : Method A :=
  fun this => (Return a, this, []).

Definition throw {A : Type} (message : string) : Method A :=
  fun this => (Throw message, this, []).

Definition bind {A B : Type} (m : Method A) (k : A -> Method B) : Method B :=
  fun this =>
    match m this with
    | (Return a, this', out) =>
        match k a this' with
        | (r, this'', out') => (r, this'', out ++ out')
        end
    | (Throw e, this', out) => (Throw e, this', out)
    end.

Definition read : Method CommandContext :=
  fun this => (Return this, this, []).

Definition write (this' : CommandContext) : Method unit :=
  fun _ => (Return tt, this', []).

Definition call (e : Effect) : Method unit :=
  fun this => (Return tt, this, [e]).

Declare Scope method_scope.
Delimit Scope method_scope with method.
Notation "x <- m ;; k" := (bind m (fun x => k))
  (at level 61, m at next level, right associativity) : method_scope.
Notation "m ;; k" := (bind m (fun _ => k))
  (at level 61, right associativity) : method_scope.
Local Open Scope method_scope.

(** Deletes the message and stops listening for interactions, effectively
    terminating the context. *)
Definition terminate : Method unit :=
  this <- read ;;
  write (mkContext (allowedUserIDs_ this) (evidences_ this) (message_ this)
           (option_map (map stop) (collectors_ this))
           None true) ;;
  match message_ this with
  | Some m => call (DeleteMessage m)
  | None => ret tt
  end.

(** Refreshes the idle timeout: the timer, if there is one, now fires
    [IDLE_TIME] after [now]. *)
Definition refreshTimeout (now : Z) : Method unit :=
  this <- read ;;
  match idleTimeout_ this with
  | Some _ =>
      write (mkContext (allowedUserIDs_ this) (evidences_ this)
               (message_ this) (collectors_ this)
               (Some (mkTimeout (now + IDLE_TIME))) (terminated_ this))
  | None => ret tt
  end.

(** Generates an embed representing the current state of the journal. *)
Definition makeEmbed : Method EmbedBuilder :=
  this <- read ;;
  match evidences_ this with
  | None =>
      terminate ;;
      throw "makeEmbed called before initializing #evidences."
  | Some j => ret (journal_embed j)
  end.

(** Checks if a user can interact with the journal. *)
Definition canInteract (user : string) : Method bool :=
  this <- read ;;
  match allowedUserIDs_ this with
  | None =>
      terminate ;;
      throw "#canInteract called before initializing #allowedUserIDs"
  | Some ids => ret (existsb (String.eqb user) ids)
  end.

(** What a component of the message sends when it is used. *)
Inductive ComponentData : Type :=
  (** a button, with its custom id *)
  | ButtonData (customId : EvidenceID)
  (** the select menu, with the chosen values *)
  | StringSelectData (values : list string).

Record MessageComponentInteraction : Type := mkInteraction {
  user : string;
  data : ComponentData
}.

Definition interaction_type (i : MessageComponentInteraction) : ComponentType :=
  match data i with
  | ButtonData _ => ButtonType
  | StringSelectData _ => StringSelectType
  end.

(** The filter of both collectors. *)
Definition interactionFilter (interaction : MessageComponentInteraction)
    : Method bool :=
  allowed <- canInteract (user interaction) ;;
  if negb allowed then
    call (ReplyEphemeral "You were not invited to use this journal.") ;;
    ret false
  else ret true.

(** Stores a journal in [#evidences]; the journal is one object, shared by
    the handlers and the context. *)
Definition store_journal (j : Journal) : Method unit :=
  this <- read ;;
  write (mkContext (allowedUserIDs_ this) (Some j) (message_ this)
           (collectors_ this) (idleTimeout_ this) (terminated_ this)).

(** Updates the message to reflect the current state of the journal.  The
    promise of [interaction.update] settles later: see [UpdateRejected]. *)
Definition updateMessage : Method unit :=
  this <- read ;;
  match evidences_ this with
  | None =>
      terminate ;;
      throw "#updateMessage called before initializing #evidences."
  | Some j =>
      embed <- makeEmbed ;;
      match asComponents j with
      | Throw e => throw e
      | Return rows => call (UpdateJournal embed rows)
      end
  end.

(** The state after the one a button press finds. *)
Definition toggle (state : EvidenceState) : EvidenceState :=
  if EvidenceState_beq state ABSENT then INDEFINITE
  else if EvidenceState_beq state INDEFINITE then PRESENT
  else ABSENT.

(** The handler of the button collector.  It is registered after
    [#evidences] was set and works on that journal, so the journal is there
    whenever it runs. *)
Definition on_button (now : Z) (customId : EvidenceID) : Method unit :=
  refreshTimeout now ;;
  this <- read ;;
  match evidences_ this with
  | Some j =>
      let state := get (evidences j) customId in
      store_journal
        (mkJournal (set (evidences j) customId (toggle state))
           (availableEvidences j)) ;;
      updateMessage
  | None => updateMessage
  end.

(** [parseInt(interaction.values[0])]; [undefined] reads as the text
    "undefined". *)
Definition parse_first (values : list string) : number :=
  match values with
  | v :: _ => parseInt v
  | [] => parseInt "undefined"
  end.

(** The handler of the evidence count collector. *)
Definition on_evidence_count (now : Z) (values : list string) : Method unit :=
  refreshTimeout now ;;
  this <- read ;;
  match evidences_ this with
  | Some j =>
      store_journal (mkJournal (evidences j) (parse_first values)) ;;
      updateMessage
  | None => updateMessage
  end.

(** Whether a collector of the context still listens to a component type. *)
Definition listening (this : CommandContext) (t : ComponentType) : bool :=
  match collectors_ this with
  | Some cs =>
      existsb (fun c => ComponentType_beq (componentType c) t && negb (ended c))
        cs
  | None => false
  end.

(** A component interaction reaches the collector of its type, if it still
    listens; the collector emits [collect] only when the filter accepts. *)
Definition on_interaction (now : Z) (interaction : MessageComponentInteraction)
    : Method unit :=
  this <- read ;;
  if listening this (interaction_type interaction) then
    accepted <- interactionFilter interaction ;;
    if accepted then
      match data interaction with
      | ButtonData customId => on_button now customId
      | StringSelectData values => on_evidence_count now values
      end
    else ret tt
  else ret tt.

(** The idle timer fires, if it is armed and its time has come. *)
Definition on_idle (now : Z) : Method unit :=
  this <- read ;;
  match idleTimeout_ this with
  | Some t => if deadline t <=? now then terminate else ret tt
  | None => ret tt
  end.

(** What happens to a context after its construction.  Each event comes
    with the time at which it happens. *)
Inductive Event : Type :=
  (** a user uses a component of the message *)
  | Interaction (interaction : MessageComponentInteraction)
  (** the promise of an [interaction.update] rejects:
      [.catch(this.#terminate.bind(this))] *)
  | UpdateRejected
  (** time passes *)
  | Tick.

Definition handle (now : Z) (e : Event) : Method unit :=
  match e with
  | Interaction i => on_interaction now i
  | UpdateRejected => terminate
  | Tick => on_idle now
  end.

(** How the promise of the first [interaction.reply] settles. *)
Inductive ReplyOutcome : Type :=
  (** the reply is rejected *)
  | ReplyRejected
  (** the reply is sent, [reply.fetch()] is rejected *)
  | FetchRejected
  (** the reply is sent and fetched *)
  | Replied (m : Message).

Record ChatInputCommandInteraction : Type := mkCommand {
  command_user : string;
  (** [appPermissions.has("ViewChannel")], [None] for no permissions at all *)
  appPermissions : option bool;
  reply_outcome : ReplyOutcome
}.

(** The asynchronous body of the constructor, run on the fresh context;
    [now] is the time at which the idle timer is armed. *)
Definition setup (now : Z) (interaction : ChatInputCommandInteraction)
    (additionalUsers : list string) : Method unit :=
  match appPermissions interaction with
  | None | Some false =>
      call (ReplyEphemeral "I don't have permission to view this channel.") ;;
      match reply_outcome interaction with
      | ReplyRejected => throw "reply rejected"
      | _ => terminate
      end
  | Some true =>
      this <- read ;;
      write (mkContext (Some (command_user interaction :: additionalUsers))
               (Some new_Journal) (message_ this) (collectors_ this)
               (idleTimeout_ this) (terminated_ this)) ;;
      embed <- makeEmbed ;;
      match asComponents new_Journal with
      | Throw e => throw e
      | Return rows =>
          call (ReplyJournal embed rows) ;;
          match reply_outcome interaction with
          | Replied m =>
              this <- read ;;
              write (mkContext (allowedUserIDs_ this) (evidences_ this)
                       (Some m) (collectors_ this) (idleTimeout_ this)
                       (terminated_ this))
          | ReplyRejected | FetchRejected =>
              (* .catch(() => { this.#terminate.bind(this); }): the bound
                 function is built and dropped, nothing is called *)
              ret tt
          end ;;
          this <- read ;;
          match message_ this with
          | None => ret tt
          | Some _ =>
              write (mkContext (allowedUserIDs_ this) (evidences_ this)
                       (message_ this)
                       (Some [mkCollector ButtonType false;
                              mkCollector StringSelectType false])
                       (Some (mkTimeout (now + IDLE_TIME)))
                       (terminated_ this))
          end
      end
  end.

(** [new CommandContext(interaction, additionalUsers)] *)
Definition new_CommandContext (now : Z)
    (interaction : ChatInputCommandInteraction)
    (additionalUsers : list string)
    : completion unit * CommandContext * list Effect :=
  setup now interaction additionalUsers fresh_context.

(** The context after a method ran, and what it asked of Discord. *)
Definition context_after {A : Type}
    (r : completion A * CommandContext * list Effect) : CommandContext :=
  snd (fst r).

Definition effects_of {A : Type}
    (r : completion A * CommandContext * list Effect) : list Effect :=
  snd r.

(** Runs the events, each at its time, stopping nowhere: an exception thrown
    by a handler leaves the context as the handler left it. *)
Fixpoint run (events : list (Z * Event)) (this : CommandContext)
    : CommandContext :=
  match events with
  | [] => this
  | (now, e) :: rest => run rest (context_after (handle now e this))
  end.

(** The contexts a command can be in. *)
Inductive reachable : CommandContext -> Prop :=
  | reachable_new now interaction additionalUsers :
      reachable
        (context_after (new_CommandContext now interaction additionalUsers))
  | reachable_handle this now e :
      reachable this -> reachable (context_after (handle now e this)).

(** ** The command handler *)

(** One option of the slash command, as the interaction carries it: the user
    it names (by id), if it is a user option that was filled in. *)
Record CommandInteractionOption : Type := mkCommandOption {
  option_user : option string
}.

(** [_.compact(array)]: the array without its [undefined] entries (a user is
    never falsy). *)
Fixpoint compact {A : Type} (array : list (option A)) : list A :=
  match array with
  | [] => []
  | Some a :: rest => a :: compact rest
  | None :: rest => compact rest
  end.

(** [handler(interaction)]: a context for the invoking user and the users the
    options invite. *)
Definition handler (now : Z) (interaction : ChatInputCommandInteraction)
    (options_data : list CommandInteractionOption)
    : completion unit * CommandContext * list Effect :=
  new_CommandContext now interaction (compact (map option_user options_data)).

(** The events of a context with what each handler returned or threw and
    what it asked of Discord, in order. *)
Fixpoint trace (events : list (Z * Event)) (this : CommandContext)
    : list (completion unit * list Effect) :=
  match events with
  | [] => []
  | (now, e) :: rest =>
      let r := handle now e this in
      (fst (fst r), effects_of r) :: trace rest (context_after r)
  end.

(** ** The logger *)

(** Where a line goes: [console.log], [console.warn] or [console.error]. *)
Inductive Console : Type :=
  | ConsoleLog
  | ConsoleWarn
  | ConsoleError.

(** The static state of the [Logger] class with the lines written so far,
    the oldest first. *)
Record LoggerState : Type := mkLoggerState {
  (** Currently displayed label. *)
  currentLabel : option string;
  written : list (Console * string)
}.

(** How many spaces messages will be indented in relation to their labels. *)
Definition INLABEL_INDENTATION : Z := 3.

(** [" ".repeat(count)]: a [RangeError] for a negative count. *)
Definition repeat_space (count : Z) : completion string :=
  if count <? 0 then Throw "RangeError: Invalid count value"
  else Return (string_of_list_ascii (repeat " "%char (Z.to_nat count))).

(** A string representing [INLABEL_INDENTATION]. *)
Definition INLABEL_INDENTATION_STR : string := "   ".

(** The escape character of the terminal codes. *)
Definition ESC : string := String (ascii_of_nat 27) EmptyString.

(** The line feed. *)
Definition LF : string := String (ascii_of_nat 10) EmptyString.

Section LoggerMethods.

(** [message.match(regex)] for the regular expression of [splitMessage],
    [(\S.{0,first}(?=\s+|$))|\S{exact}] with the flag [g]: every match, or
    [null] when there is none.  The regular expression engine is not
    modelled. *)
Variable regex_match : Z -> Z -> string -> option (list string).

(** Splits a message into multiple lines and properly indents the lines
    after the first. *)
Definition splitMessage (message : string) (indent lineLength : Z)
    : completion string :=
  let indent := indent + INLABEL_INDENTATION in
  let lineLength :=
    if lineLength - indent <? 10 then indent + 25 else lineLength in
  let lines :=
    match regex_match (lineLength - 1 - indent) (lineLength - indent) message with
    | Some lines => lines
    | None => [""]
    end in
  match repeat_space indent with
  | Return spaces => Return (String.concat (LF ++ spaces)%string lines)
  | Throw e => Throw e
  end.

(** Ensures that this logger's label is already being displayed. *)
Definition ensureLabel (label : string) (st : LoggerState) : LoggerState :=
  let differs :=
    match currentLabel st with
    | Some current => negb (String.eqb label current)
    | None => true
    end in
  mkLoggerState (Some label)
    (if differs
     then written st
          ++ [(ConsoleLog,
               (ESC ++ "[1mFrom " ++ label ++ ESC ++ "[0m")%string)]
     else written st).

(** Writes one line, or throws what building the line threw. *)
Definition write_line (c : Console) (prefix : string)
    (text : completion string) (st : LoggerState)
    : completion unit * LoggerState :=
  match text with
  | Return s =>
      (Return tt,
       mkLoggerState (currentLabel st)
         (written st ++ [(c, (prefix ++ s)%string)]))
  | Throw e => (Throw e, st)
  end.

(** Logs a message. *)
Definition log (label message : string) (st : LoggerState)
    : completion unit * LoggerState :=
  write_line ConsoleLog INLABEL_INDENTATION_STR
    (splitMessage message 0 80) (ensureLabel label st).

(** Logs a warning message. *)
Definition warn (label message : string) (st : LoggerState)
    : completion unit * LoggerState :=
  write_line ConsoleWarn
    (INLABEL_INDENTATION_STR ++ ESC ++ "[1m" ++ ESC ++ "[33mWARNING" ++ ESC
     ++ "[0m ")%string
    (splitMessage message (Z.of_nat (String.length "WARNING ")) 80)
    (ensureLabel label st).

(** Logs an error message. *)
Definition error (label message : string) (st : LoggerState)
    : completion unit * LoggerState :=
  write_line ConsoleError
    (INLABEL_INDENTATION_STR ++ ESC ++ "[1m" ++ ESC ++ "[31mERROR" ++ ESC
     ++ "[0m ")%string
    (splitMessage message (Z.of_nat (String.length "ERROR ")) 80)
    (ensureLabel label st).

(** One call on a logger: the method, the logger's label, the message. *)
Record LoggerCall : Type := mkCall {
  call_method : Console;
  call_label : string;
  call_message : string
}.

Definition perform (c : LoggerCall) (st : LoggerState)
    : completion unit * LoggerState :=
  match call_method c with
  | ConsoleLog => log (call_label c) (call_message c) st
  | ConsoleWarn => warn (call_label c) (call_message c) st
  | ConsoleError => error (call_label c) (call_message c) st
  end.


End LoggerMethods.

(** * The vocabulary of the properties *)

(** Membership in a list of names, as a computation. *)
Definition mentions (names : list string) (n : string) : bool :=
  existsb (String.eqb n) names.

(** What every entry of the catalogue satisfies. *)
Definition well_formed (g : Ghost) : Prop :=
  List.length (ghostEvidences g) = 3%nat
  /\ (forall e, guaranteed g = Some e -> In e (ghostEvidences g))
  /\ (guaranteed g = None \/ fake g = None)
  /\ (forall e, fake g = Some e ->
        g = TheMimic /\ e = orb /\ ~ In e (ghostEvidences g)).

(** The ceilings a session offers. *)
Definition valid_ceiling (n : number) : Prop :=
  n = Num 1 \/ n = Num 2 \/ n = Num 3.

(** The rows [asComponents] builds when it returns. *)
Definition journal_rows (this : Journal) (ceiling : Z) : list ActionRowBuilder :=
  [ mkRow
      [SelectMenu
         (mkSelect "evidence_count" "Evidence count"
            [ mkOption "3 evidences"
                "The ghost can show up to three evidences." "3" (ceiling =? 3);
              mkOption "2 evidences"
                "The ghost can show up to two evidences." "2" (ceiling =? 2);
              mkOption "1 evidence"
                "The ghost can show up to one evidence." "1" (ceiling =? 1) ])];
    mkRow (map (fun id => Button (evidence_button this id))
             [dots; emf; freezing; orb; writing]);
    mkRow (map (fun id => Button (evidence_button this id)) [box; uv]) ].

(** The evidence ids in the order of the keys of [Journal.evidences]. *)
Definition KEYS : list EvidenceID :=
  [dots; emf; uv; freezing; orb; writing; box].

(** The journal with the state of one evidence replaced. *)
Definition with_state (this : Journal) (id : EvidenceID) (s : EvidenceState)
    : Journal :=
  mkJournal (set (evidences this) id s) (availableEvidences this).

(** The remaining capacity in the words of the specification: the ceiling
    minus the number of present evidences, the ghost's fake evidence left
    out.  (The code subtracts every present evidence:
    [obtainableRemainingEvidences].) *)
Definition remainingCapacity (this : Journal) (g : Ghost) : number :=
  num_sub (availableEvidences this) (len (presentWithoutFake this g)).

(** The claim on the guaranteed evidence, read word for word: with the
    guaranteed evidence not present, the ghost is excluded exactly when the
    remaining capacity is below 1. *)
Definition guaranteed_claim_as_written : Prop :=
  forall this g e,
    In g GHOSTS ->
    guaranteed g = Some e ->
    (get (evidences this) e = ABSENT ->
     ~ In (name g) (possibleGhosts this))
    /\ (get (evidences this) e <> PRESENT ->
        (~ In (name g) (possibleGhosts this)
         <-> num_ltb (remainingCapacity this g) (Num 1) = true)).

(** The claim on ruling an evidence out, read word for word: when the
    evidence belongs to every ghost that is possible before the change,
    every ghost possible after it was possible before. *)
Definition shrink_claim_as_written : Prop :=
  forall this id,
    (forall g, In g GHOSTS -> In (name g) (possibleGhosts this) ->
               In id (ghostEvidences g)) ->
    forall n,
      In n (possibleGhosts (with_state this id ABSENT)) ->
      In n (possibleGhosts this).

(** A command whose reply succeeds, and the listening context it gives. *)
Definition example_command : ChatInputCommandInteraction :=
  mkCommand "alice" (Some true) (Replied (mkMessage "journal")).

Definition example_context : CommandContext :=
  context_after (new_CommandContext 0 example_command ["bob"]).

(** What holds of every context whose collectors exist: the constructor set
    the allowed users, the journal and the message before creating them. *)
Definition initialized (this : CommandContext) : Prop :=
  collectors_ this <> None ->
  allowedUserIDs_ this <> None
  /\ evidences_ this <> None
  /\ message_ this <> None.

(** The claim on the ceiling, read word for word: a value outside 1, 2, 3
    leaves the journal as it was. *)
Definition ceiling_claim_as_written : Prop :=
  forall this now i values j,
    reachable this ->
    data i = StringSelectData values ->
    ~ valid_ceiling (parse_first values) ->
    evidences_ this = Some j ->
    evidences_ (context_after (handle now (Interaction i) this)) = Some j.

(** The values the menu of a rendered journal offers. *)
Definition offered_values (rows : list ActionRowBuilder) : list string :=
  match rows with
  | {| components := [SelectMenu menu] |} :: _ =>
      map option_value (options menu)
  | _ => []
  end.

(** A ghost the catalogue does not have: one with both a guaranteed and a
    fake evidence. *)
Definition marked_ghost : Ghost :=
  mkGhost "Marked" [uv; orb; freezing] (Some freezing) (Some emf).

(** One press of an evidence button by a user. *)
Definition press (u : string) (id : EvidenceID) : Event :=
  Interaction (mkInteraction u (ButtonData id)).

(** The two collectors of a context, both listening or both stopped. *)
Definition both_collectors (stopped : bool) : list InteractionCollector :=
  [mkCollector ButtonType stopped; mkCollector StringSelectType stopped].

(** The three shapes of a context: its constructor ended before it created
    collectors; it listens, with its idle timeout armed; it was terminated
    after it listened. *)
Inductive lifecycle : CommandContext -> Prop :=
  | lifecycle_unstarted ids j t :
      lifecycle (mkContext ids j None None None t)
  | lifecycle_active ids j m d :
      lifecycle
        (mkContext (Some ids) (Some j) (Some m)
           (Some (both_collectors false)) (Some d) false)
  | lifecycle_closed ids j m :
      lifecycle
        (mkContext (Some ids) (Some j) (Some m)
           (Some (both_collectors true)) None true).

(** A list with some of its elements left out, the others in order. *)
Inductive subsequence {A : Type} : list A -> list A -> Prop :=
  | subsequence_nil : subsequence [] []
  | subsequence_keep x l l' :
      subsequence l l' -> subsequence (x :: l) (x :: l')
  | subsequence_drop x l l' :
      subsequence l l' -> subsequence l (x :: l').

(** An event a user can cause through the rendered components: a chosen
    value of the menu is one the menu offers. *)
Definition offered (e : Event) : Prop :=
  match e with
  | Interaction {| data := StringSelectData values |} =>
      exists v rest, values = v :: rest /\ In v ["3"; "2"; "1"]
  | _ => True
  end.

(** The journal of the context, if there is one, has a ceiling the menu
    offers. *)
Definition ceiling_in_range (this : CommandContext) : Prop :=
  forall j, evidences_ this = Some j -> valid_ceiling (availableEvidences j).

(** The buttons of the rows, in order. *)
Definition buttons_of (rows : list ActionRowBuilder) : list ButtonBuilder :=
  flat_map
    (fun row =>
       flat_map
         (fun c => match c with Button b => [b] | SelectMenu _ => [] end)
         (components row))
    rows.

(** The options of the menus of the rows, in order. *)
Definition options_of (rows : list ActionRowBuilder)
    : list StringSelectMenuOptionBuilder :=
  flat_map
    (fun row =>
       flat_map
         (fun c => match c with
                   | SelectMenu menu => options menu
                   | Button _ => []
                   end)
         (components row))
    rows.


(** The journal after the handler of a component changed it. *)
Definition mutated (j : Journal) (d : ComponentData) : Journal :=
  match d with
  | ButtonData id => with_state j id (toggle (get (evidences j) id))
  | StringSelectData values => mkJournal (evidences j) (parse_first values)
  end.

(** A context that listens: allowed users, journal, message, both
    collectors, the idle timeout with its deadline. *)
Definition active_context (ids : list string) (j : Journal) (m : Message)
    (d : Z) : CommandContext :=
  mkContext (Some ids) (Some j) (Some m) (Some (both_collectors false))
    (Some (mkTimeout d)) false.

(** A context that was terminated after it listened. *)
Definition closed_context (ids : list string) (j : Journal) (m : Message)
    : CommandContext :=
  mkContext (Some ids) (Some j) (Some m) (Some (both_collectors true))
    None true.

(** * Properties *)

Arguments asComponents : simpl never.
Arguments journal_embed : simpl never.

(** ** Lists and the catalogue *)

Section ListFacts.

Context {A B : Type}.
Variable f : A -> B.

(** A function whose images over a list are all different is injective on
    the members of the list. *)
Lemma NoDup_map_injective (l : list A) :
  NoDup (map f l) ->
  forall x y, In x l -> In y l -> f x = f y -> x = y.
Proof.
  induction l as [|a l IH]; intros Hnd x y Hx Hy Hxy; [contradiction|].
  simpl in Hnd. inversion Hnd as [|? ? Hnotin Hnd']; subst.
  destruct Hx as [Hx|Hx], Hy as [Hy|Hy]; subst.
  - reflexivity.
  - exfalso. apply Hnotin. rewrite Hxy. now apply in_map.
  - exfalso. apply Hnotin. rewrite <- Hxy. now apply in_map.
  - now apply IH.
Qed.

End ListFacts.

Lemma mentions_In names n : mentions names n = true <-> In n names.
Proof.
  unfold mentions. rewrite existsb_exists. split.
  - intros [x [Hin Heq]]. apply String.eqb_eq in Heq. now subst.
  - intros Hin. exists n. split; [assumption | apply String.eqb_refl].
Qed.

Lemma mentions_not_In names n : mentions names n = false <-> ~ In n names.
Proof.
  rewrite <- mentions_In. destruct (mentions names n); split; intros H;
    try discriminate; try reflexivity; try (intros H'; discriminate).
  exfalso. now apply H.
Qed.

(** No two ghosts of the catalogue share a name. *)
Lemma GHOSTS_names_NoDup : NoDup (map name GHOSTS).
Proof.
  simpl.
  repeat (constructor;
          [ apply mentions_not_In; vm_compute; reflexivity | ]).
  constructor.
Qed.

(** A ghost of the catalogue is named in the result exactly when the filter
    keeps it. *)
Lemma possibleGhosts_spec (this : Journal) (g : Ghost) :
  In g GHOSTS ->
  (In (name g) (possibleGhosts this) <-> possible this g = true).
Proof.
  intros Hg. unfold possibleGhosts. rewrite in_map_iff. split.
  - intros [g' [Hname Hin]]. apply filter_In in Hin. destruct Hin as [Hin Hp].
    assert (g' = g) as ->
        by (apply (NoDup_map_injective name GHOSTS GHOSTS_names_NoDup);
            assumption).
    assumption.
  - intros Hp. exists g. split; [reflexivity|]. apply filter_In. now split.
Qed.

Lemma Hantu_in_GHOSTS : In Hantu GHOSTS.
Proof. unfold GHOSTS. simpl. tauto. Qed.

Lemma TheMimic_in_GHOSTS : In TheMimic GHOSTS.
Proof. unfold GHOSTS. simpl. tauto. Qed.

(** ** The present and absent lists *)

Ltac split_states m :=
  destruct m as [sd se su sf so sw sb].

(** Filtering the entries on their state keeps an id exactly when its state
    passes. *)
Lemma includes_filter_entries (p : EvidenceState -> bool)
    (m : EvidenceStates) (id : EvidenceID) :
  includes (map fst (filter (fun entry => p (snd entry)) (entries m))) id
  = p (get m id).
Proof.
  split_states m. unfold includes, entries.
  destruct id; simpl;
    destruct (p sd), (p se), (p su), (p sf), (p so), (p sw), (p sb);
    reflexivity.
Qed.

(** An id is listed for a state exactly when it is in that state. *)
Lemma includes_ids_in_state (s : EvidenceState) (this : Journal)
    (id : EvidenceID) :
  includes (ids_in_state s this) id
  = EvidenceState_beq (get (evidences this) id) s.
Proof.
  exact (includes_filter_entries (fun x => EvidenceState_beq x s)
           (evidences this) id).
Qed.

Lemma EvidenceState_beq_eq (x y : EvidenceState) :
  EvidenceState_beq x y = true <-> x = y.
Proof. destruct x, y; simpl; split; intros H; congruence. Qed.

Lemma EvidenceID_beq_eq (x y : EvidenceID) :
  EvidenceID_beq x y = true <-> x = y.
Proof. destruct x, y; simpl; split; intros H; congruence. Qed.

Lemma includes_In (l : list EvidenceID) (x : EvidenceID) :
  includes l x = true <-> In x l.
Proof.
  unfold includes. rewrite existsb_exists. split.
  - intros [y [Hin Heq]]. apply EvidenceID_beq_eq in Heq. now subst.
  - intros Hin. exists x. split; [assumption|]. now apply EvidenceID_beq_eq.
Qed.

(** What [possible] amounts to: every check lets the ghost through. *)
Lemma possible_true_iff (this : Journal) (g : Ghost) :
  possible this g = true <->
  has_found_evidences this g = true
  /\ too_many_found this g = false
  /\ too_many_absent this g = false
  /\ guaranteed_unobtainable this g = false
  /\ fake_absent this g = false.
Proof.
  unfold possible.
  destruct (has_found_evidences this g), (too_many_found this g),
    (too_many_absent this g), (guaranteed_unobtainable this g),
    (fake_absent this g); simpl; intuition congruence.
Qed.

(** Without a fake evidence nothing is taken out of the present list. *)
Lemma presentWithoutFake_no_fake (this : Journal) (g : Ghost) :
  fake g = None -> presentWithoutFake this g = present this.
Proof.
  intros Hf. unfold presentWithoutFake, difference. rewrite Hf. simpl.
  induction (present this) as [|x l IH]; simpl; [reflexivity|].
  now rewrite IH.
Qed.

(** The present list has one entry per present value. *)
Lemma present_length (this : Journal) :
  List.length (present this)
  = List.length (filter (fun found => EvidenceState_beq found PRESENT)
                   (values (evidences this))).
Proof.
  unfold present, ids_in_state, values. rewrite length_map.
  induction (entries (evidences this)) as [|[id s] l IH]; simpl;
    [reflexivity|].
  destruct (EvidenceState_beq s PRESENT); simpl; now rewrite IH.
Qed.

(** ** The catalogue is well formed *)

Ltac check_entry :=
  unfold well_formed; simpl;
  split; [reflexivity|];
  split; [intros e He; inversion He; subst; simpl; tauto|];
  split; [first [left; reflexivity | right; reflexivity]|];
  intros e He; inversion He; subst;
  repeat split; simpl; intuition discriminate.

Lemma GHOSTS_entries_well_formed : Forall well_formed GHOSTS.
Proof.
  unfold GHOSTS, plain, Hantu.
  repeat (apply Forall_cons; [check_entry|]).
  apply Forall_nil.
Qed.

(** C9. The catalogue has 24 entries; each has exactly 3 evidences; a
    guaranteed evidence, when set, is one of the entry's evidences; no entry
    sets both a guaranteed and a fake evidence; and the only fake evidence,
    The Mimic's orb, is not one of The Mimic's evidences. *)
Theorem GHOSTS_well_formed :
  List.length GHOSTS = 24%nat
  /\ Forall well_formed GHOSTS
  /\ In TheMimic GHOSTS
  /\ fake TheMimic = Some orb.
Proof.
  split; [reflexivity|].
  split; [exact GHOSTS_entries_well_formed|].
  split; [exact TheMimic_in_GHOSTS | reflexivity].
Qed.

(** ** Nothing observed *)

(** C3. When every evidence is indefinite and the ceiling is 1, 2 or 3,
    [possibleGhosts] returns the names of all 24 ghosts, in catalogue
    order. *)
Theorem possibleGhosts_all_indefinite (this : Journal) :
  evidences this = all_indefinite ->
  valid_ceiling (availableEvidences this) ->
  possibleGhosts this = map name GHOSTS
  /\ List.length (possibleGhosts this) = 24%nat
  /\ possibleGhosts this
     = [ "Spirit"; "Wraith"; "Phantom"; "Poltergeist"; "Banshee"; "Jinn";
         "Mare"; "Revenant"; "Shade"; "Demon"; "Yurei"; "Oni"; "Yokai";
         "Hantu"; "Goryo"; "Myling"; "Onryo"; "The Twins"; "Raiju"; "Obake";
         "The Mimic"; "Moroi"; "Deogen"; "Thaye" ].
Proof.
  destruct this as [m a]. simpl. intros -> [->|[->| ->]];
    repeat split; reflexivity.
Qed.

Lemma possibleGhosts_all_indefinite_witness :
  possibleGhosts new_Journal = map name GHOSTS
  /\ List.length (possibleGhosts new_Journal) = 24%nat
  /\ possibleGhosts new_Journal
     = [ "Spirit"; "Wraith"; "Phantom"; "Poltergeist"; "Banshee"; "Jinn";
         "Mare"; "Revenant"; "Shade"; "Demon"; "Yurei"; "Oni"; "Yokai";
         "Hantu"; "Goryo"; "Myling"; "Onryo"; "The Twins"; "Raiju"; "Obake";
         "The Mimic"; "Moroi"; "Deogen"; "Thaye" ].
Proof.
  apply (possibleGhosts_all_indefinite new_Journal).
  - reflexivity.
  - right. right. reflexivity.
Defined.

(** ** The components *)

(** With enough fuel the groups are the array cut in pieces: put back
    together they give the array, each has at most [size] elements, and
    there are as many as the length divided by [size], rounded up. *)
Lemma chunk_loop_spec {A : Type} (size : nat) :
  forall (fuel : nat) (array : list A),
    (0 < size)%nat ->
    (List.length array <= fuel)%nat ->
    List.concat (chunk_loop fuel size array) = array
    /\ Forall (fun row => (List.length row <= size)%nat)
         (chunk_loop fuel size array)
    /\ (List.length array
        <= List.length (chunk_loop fuel size array) * size
        < List.length array + size)%nat.
Proof.
  induction fuel as [|fuel IH]; intros array Hsize Hfuel.
  - destruct array as [|x rest]; cbn [List.length] in Hfuel; [|lia].
    simpl. repeat split; try lia. constructor.
  - destruct array as [|x rest].
    + simpl. repeat split; try lia. constructor.
    + cbn [chunk_loop].
      assert (Hskip : (List.length (skipn size (x :: rest)) <= fuel)%nat)
        by (rewrite length_skipn; cbn [List.length] in *; lia).
      destruct (IH (skipn size (x :: rest)) Hsize Hskip)
        as (Hconcat & Hrows & Hlow & Hup).
      rewrite length_skipn in Hlow, Hup.
      cbn [List.concat List.length] in *. rewrite Hconcat, firstn_skipn.
      split; [reflexivity|]. split.
      * constructor; [|assumption]. rewrite length_firstn. lia.
      * rewrite Nat.mul_succ_l.
        destruct (List.length (chunk_loop fuel size (skipn size (x :: rest))))
          as [|k]; [lia|].
        rewrite Nat.mul_succ_l in *. lia.
Qed.

Lemma chunk_spec {A : Type} (array : list A) (size : Z) :
  1 <= size ->
  List.concat (chunk array size) = array
  /\ Forall (fun row => Z.of_nat (List.length row) <= size) (chunk array size)
  /\ Z.of_nat (List.length array)
     <= Z.of_nat (List.length (chunk array size)) * size
     < Z.of_nat (List.length array) + size.
Proof.
  intros Hsize. unfold chunk.
  destruct (size <? 1) eqn:E; [apply Z.ltb_lt in E; lia|].
  destruct (chunk_loop_spec (Z.to_nat size) (List.length array) array)
    as (Hconcat & Hrows & Hcount); [lia | lia |].
  split; [assumption|]. split.
  - apply Forall_impl with (2 := Hrows). intros row Hrow. lia.
  - nia.
Qed.

Lemma asComponents_valid (this : Journal) (ceiling : Z) :
  availableEvidences this = Num ceiling ->
  1 <= ceiling <= 3 ->
  asComponents this = Return (journal_rows this ceiling).
Proof.
  intros Ha Hc. unfold asComponents. rewrite Ha.
  assert (ceiling = 1 \/ ceiling = 2 \/ ceiling = 3) as [->|[->| ->]] by lia;
    reflexivity.
Qed.

(** The error of the row limit is never the one thrown, whatever the
    ceiling. *)
Lemma asComponents_never_too_many_rows (this : Journal) :
  asComponents this <> Throw "Too many rows".
Proof.
  unfold asComponents.
  destruct (setDefault_at evidence_count_options
              (num_sub MAX_EVIDENCES (availableEvidences this))) as [opts|e] eqn:E.
  - cbv. discriminate.
  - intros Heq. injection Heq as ->. unfold setDefault_at, at_index in E.
    destruct (num_sub MAX_EVIDENCES (availableEvidences this)) as [|z];
      [discriminate|].
    destruct (z <? 0); [discriminate|].
    destruct (nth_error evidence_count_options (Z.to_nat z)); discriminate.
Qed.

(** C10. For every journal whose ceiling is 1, 2 or 3, whatever the states
    of the evidences, [asComponents] returns exactly 3 action rows: the row
    of the select menu, then the 7 evidence buttons in rows of at most 5
    (5 and 2).  3 is within the limit of 5 rows, so the error of the limit is
    not raised, and nothing else throws. *)
Theorem asComponents_three_rows (this : Journal) :
  valid_ceiling (availableEvidences this) ->
  exists rows,
    asComponents this = Return rows
    /\ List.length rows = 3%nat
    /\ Z.of_nat (List.length rows) <= MAX_ACTION_ROWS_PER_MESSAGE
    /\ map (fun row => List.length (components row)) rows = [1; 5; 2]%nat
    /\ map (fun row => List.length (components row)) (tl rows)
       = map (@List.length _)
           (chunk (map (evidence_button this) EVIDENCE_IDS)
              MAX_BUTTONS_PER_ACTION_ROW)
    /\ (forall e, asComponents this <> Throw e).
Proof.
  intros Hc.
  assert (exists c, availableEvidences this = Num c /\ 1 <= c <= 3)
    as [c [Ha Hr]]
      by (destruct Hc as [H|[H|H]]; rewrite H; eexists; split;
          try reflexivity; lia).
  exists (journal_rows this c).
  rewrite (asComponents_valid this c Ha Hr).
  repeat split; try reflexivity.
  - unfold MAX_ACTION_ROWS_PER_MESSAGE. simpl. lia.
  - intros e. discriminate.
Qed.

Lemma asComponents_three_rows_witness :
  exists rows,
    asComponents new_Journal = Return rows
    /\ List.length rows = 3%nat
    /\ Z.of_nat (List.length rows) <= MAX_ACTION_ROWS_PER_MESSAGE
    /\ map (fun row => List.length (components row)) rows = [1; 5; 2]%nat
    /\ map (fun row => List.length (components row)) (tl rows)
       = map (@List.length _)
           (chunk (map (evidence_button new_Journal) EVIDENCE_IDS)
              MAX_BUTTONS_PER_ACTION_ROW)
    /\ (forall e, asComponents new_Journal <> Throw e).
Proof.
  apply (asComponents_three_rows new_Journal).
  right. right. reflexivity.
Defined.

(** Outside 1, 2 and 3 the ceiling points at no option of the menu:
    [asComponents] throws before it builds a row. *)
Lemma asComponents_invalid_ceiling (this : Journal) :
  ~ valid_ceiling (availableEvidences this) ->
  asComponents this = Throw "TypeError: Cannot read properties of undefined".
Proof.
  intros Hinvalid. unfold asComponents.
  assert (Hthrow :
            setDefault_at evidence_count_options
              (num_sub MAX_EVIDENCES (availableEvidences this))
            = Throw "TypeError: Cannot read properties of undefined").
  { unfold setDefault_at, at_index, MAX_EVIDENCES, num_sub.
    destruct (availableEvidences this) as [|z]; [reflexivity|].
    remember (3 - z) as k eqn:Hk.
    destruct (k <? 0) eqn:E; [reflexivity|]. apply Z.ltb_ge in E.
    destruct (Z.to_nat k) as [|[|[|n]]] eqn:En.
    - exfalso. apply Hinvalid. right. right. f_equal. lia.
    - exfalso. apply Hinvalid. right. left. f_equal. lia.
    - exfalso. apply Hinvalid. left. f_equal. lia.
    - simpl. destruct n; reflexivity. }
  now rewrite Hthrow.
Qed.

(** ** The keys of a journal *)

Lemma filter_entries_keys (p : EvidenceState -> bool) (m : EvidenceStates) :
  map fst (filter (fun entry => p (snd entry)) (entries m))
  = filter (fun id => p (get m id)) KEYS.
Proof.
  split_states m. unfold entries, KEYS. simpl.
  destruct (p sd), (p se), (p su), (p sf), (p so), (p sw), (p sb);
    reflexivity.
Qed.

Lemma ids_in_state_keys (s : EvidenceState) (this : Journal) :
  ids_in_state s this
  = filter (fun id => EvidenceState_beq (get (evidences this) id) s) KEYS.
Proof.
  exact (filter_entries_keys (fun x => EvidenceState_beq x s)
           (evidences this)).
Qed.

Lemma get_set (m : EvidenceStates) (id id' : EvidenceID) (s : EvidenceState) :
  get (set m id s) id' = if EvidenceID_beq id' id then s else get m id'.
Proof. split_states m. destruct id, id'; reflexivity. Qed.

Lemma get_with_state (this : Journal) (id id' : EvidenceID)
    (s : EvidenceState) :
  get (evidences (with_state this id s)) id'
  = if EvidenceID_beq id' id then s else get (evidences this) id'.
Proof. apply get_set. Qed.

Section Filters.

Context {A : Type}.
Variables p q q' : A -> bool.

Lemma filter_filter (l : list A) :
  filter p (filter q l) = filter (fun x => q x && p x) l.
Proof.
  induction l as [|x l IH]; simpl; [reflexivity|].
  destruct (q x); simpl; [destruct (p x)|]; now rewrite IH.
Qed.

Lemma filter_length_mono (l : list A) :
  (forall x, q x = true -> q' x = true) ->
  (List.length (filter q l) <= List.length (filter q' l))%nat.
Proof.
  intros Hq. induction l as [|x l IH]; simpl; [lia|].
  destruct (q x) eqn:E.
  - rewrite (Hq x E). simpl. lia.
  - destruct (q' x); simpl; lia.
Qed.

End Filters.

(** When a count does not exceed a bound, no smaller count does. *)
Lemma num_gtb_mono (n n' : nat) (bound : number) :
  (n <= n')%nat ->
  num_gtb (Num (Z.of_nat n')) bound = false ->
  num_gtb (Num (Z.of_nat n)) bound = false.
Proof.
  intros Hle. destruct bound as [|b]; simpl; [reflexivity|].
  rewrite !Z.ltb_ge. lia.
Qed.

(** ** The Mimic and its fake evidence *)

Lemma fake_absent_mimic (this : Journal) :
  fake_absent this TheMimic
  = EvidenceState_beq (get (evidences this) orb) ABSENT.
Proof. unfold fake_absent. simpl. apply includes_ids_in_state. Qed.

Lemma presentWithoutFake_spec (this : Journal) (g : Ghost) (e : EvidenceID) :
  In e (presentWithoutFake this g)
  <-> get (evidences this) e = PRESENT /\ fake g <> Some e.
Proof.
  unfold presentWithoutFake, difference. rewrite filter_In.
  rewrite <- includes_In. unfold present.
  rewrite includes_ids_in_state, EvidenceState_beq_eq. simpl.
  destruct (fake g) as [f|]; simpl.
  - rewrite orb_false_r, negb_true_iff.
    destruct (EvidenceID_beq e f) eqn:E.
    + apply EvidenceID_beq_eq in E. subst. intuition congruence.
    + assert (e <> f)
        by (intros ->; rewrite (proj2 (EvidenceID_beq_eq f f) eq_refl) in E;
            discriminate).
      intuition congruence.
  - intuition congruence.
Qed.

(** Changing the state of the fake evidence leaves the list the membership
    and count checks read as it was. *)
Lemma presentWithoutFake_ignores_fake (this : Journal) (g : Ghost)
    (f : EvidenceID) (s : EvidenceState) :
  fake g = Some f ->
  presentWithoutFake (with_state this f s) g = presentWithoutFake this g.
Proof.
  intros Hf. unfold presentWithoutFake, present, difference.
  rewrite !ids_in_state_keys, !filter_filter, Hf.
  apply filter_ext. intros e. rewrite get_with_state. simpl.
  destruct (EvidenceID_beq e f); simpl; [|reflexivity].
  now rewrite !andb_false_r.
Qed.

(** C2. The Mimic (box, uv, freezing; fake orb): when orb is absent, The
    Mimic is excluded (at ceiling 3 as at any other); when orb is present and
    every other evidence is indefinite, with ceiling 3, The Mimic is in the
    result.  Orb is not counted toward the ceiling: it is never in the list
    the membership and count checks read, these two checks give the same
    answer whatever the state of orb, and with orb, box, uv and freezing all
    present at ceiling 3 The Mimic is still possible. *)
Theorem mimic_scenario :
  (forall this,
      get (evidences this) orb = ABSENT ->
      ~ In "The Mimic" (possibleGhosts this))
  /\ In "The Mimic"
       (possibleGhosts (mkJournal (set all_indefinite orb PRESENT) (Num 3)))
  /\ (forall this, ~ In orb (presentWithoutFake this TheMimic))
  /\ (forall this s,
         has_found_evidences (with_state this orb s) TheMimic
         = has_found_evidences this TheMimic
         /\ too_many_found (with_state this orb s) TheMimic
            = too_many_found this TheMimic)
  /\ len (presentWithoutFake
            (mkJournal (set all_indefinite orb PRESENT) (Num 3)) TheMimic)
     = Num 0
  /\ possibleGhosts
       (mkJournal (mkStates INDEFINITE INDEFINITE PRESENT PRESENT PRESENT
                     INDEFINITE PRESENT) (Num 3))
     = ["The Mimic"].
Proof.
  split; [|split; [|split; [|split; [|split]]]].
  - intros this Horb Hin.
    apply (possibleGhosts_spec this TheMimic TheMimic_in_GHOSTS) in Hin.
    apply possible_true_iff in Hin.
    destruct Hin as (_ & _ & _ & _ & Hfake).
    rewrite fake_absent_mimic, Horb in Hfake. discriminate.
  - apply mentions_In. reflexivity.
  - intros this Hin. apply presentWithoutFake_spec in Hin.
    destruct Hin as [_ Hne]. now apply Hne.
  - intros this s. unfold has_found_evidences, too_many_found.
    now rewrite (presentWithoutFake_ignores_fake this TheMimic orb s eq_refl).
  - reflexivity.
  - reflexivity.
Qed.

Lemma mimic_scenario_witness :
  ~ In "The Mimic"
      (possibleGhosts (mkJournal (set all_indefinite orb ABSENT) (Num 3))).
Proof.
  apply (proj1 mimic_scenario). reflexivity.
Defined.

(** ** The guaranteed evidence *)

(** For a ghost without a fake evidence the capacity is what the guaranteed
    check computes. *)
Lemma remainingCapacity_no_fake (this : Journal) (g : Ghost) :
  fake g = None ->
  remainingCapacity this g = obtainableRemainingEvidences this.
Proof.
  intros Hf. unfold remainingCapacity, obtainableRemainingEvidences, len.
  now rewrite (presentWithoutFake_no_fake this g Hf), present_length.
Qed.

(** The guaranteed check of any ghost, by the state of its guaranteed
    evidence.  The present evidences are all counted, a fake one too. *)
Lemma guaranteed_unobtainable_spec (this : Journal) (g : Ghost)
    (e : EvidenceID) :
  guaranteed g = Some e ->
  guaranteed_unobtainable this g
  = match get (evidences this) e with
    | ABSENT => true
    | PRESENT => false
    | INDEFINITE => num_ltb (obtainableRemainingEvidences this) (Num 1)
    end.
Proof.
  intros Hg. unfold guaranteed_unobtainable. rewrite Hg.
  destruct (get (evidences this) e); reflexivity.
Qed.

(** In the catalogue a ghost with a guaranteed evidence has no fake one. *)
Lemma guaranteed_no_fake (g : Ghost) (e : EvidenceID) :
  In g GHOSTS -> guaranteed g = Some e -> fake g = None.
Proof.
  intros Hin Hg.
  pose proof GHOSTS_entries_well_formed as Hall.
  rewrite Forall_forall in Hall.
  destruct (Hall g Hin) as (_ & _ & [Hn|Hn] & _); congruence.
Qed.

(** With emf present, everything else indefinite and ceiling 3, freezing is
    not present and the capacity is 2, yet Hantu is excluded: it does not
    have emf. *)
Lemma guaranteed_claim_as_written_fails : ~ guaranteed_claim_as_written.
Proof.
  intros Hclaim.
  destruct (Hclaim (mkJournal (set all_indefinite emf PRESENT) (Num 3))
              Hantu freezing Hantu_in_GHOSTS eq_refl) as [_ Hiff].
  assert (Hout : ~ In (name Hantu)
                     (possibleGhosts
                        (mkJournal (set all_indefinite emf PRESENT) (Num 3))))
    by (apply mentions_not_In; reflexivity).
  apply Hiff in Hout; [|discriminate].
  vm_compute in Hout. discriminate.
Qed.

(** C1, amended. For every ghost of the catalogue with a guaranteed
    evidence: the ghost is excluded when that evidence is absent; when it is
    indefinite, the ghost is excluded whenever the ceiling minus the number
    of real present evidences is below 1, and otherwise it is in the result
    exactly when it passes the membership, count and absence checks.  Hantu,
    with ceiling 3, freezing absent and the rest indefinite, is excluded. *)
Theorem guaranteed_check (this : Journal) (g : Ghost) (e : EvidenceID) :
  In g GHOSTS ->
  guaranteed g = Some e ->
  (get (evidences this) e = ABSENT ->
   ~ In (name g) (possibleGhosts this))
  /\ (get (evidences this) e = INDEFINITE ->
      num_ltb (remainingCapacity this g) (Num 1) = true ->
      ~ In (name g) (possibleGhosts this))
  /\ (get (evidences this) e = INDEFINITE ->
      (In (name g) (possibleGhosts this)
       <-> num_ltb (remainingCapacity this g) (Num 1) = false
           /\ has_found_evidences this g = true
           /\ too_many_found this g = false
           /\ too_many_absent this g = false))
  /\ ~ In "Hantu"
       (possibleGhosts (mkJournal (set all_indefinite freezing ABSENT) (Num 3))).
Proof.
  intros Hin Hg.
  pose proof (guaranteed_no_fake g e Hin Hg) as Hf.
  pose proof (guaranteed_unobtainable_spec this g e Hg) as Hu.
  rewrite (remainingCapacity_no_fake this g Hf).
  rewrite (possibleGhosts_spec this g Hin), possible_true_iff.
  assert (Hfa : fake_absent this g = false)
    by (unfold fake_absent; now rewrite Hf).
  rewrite Hfa, Hu.
  split; [|split; [|split]].
  - intros -> (_ & _ & _ & H & _). discriminate.
  - intros -> Hlt (_ & _ & _ & H & _). congruence.
  - intros ->. tauto.
  - apply mentions_not_In. reflexivity.
Qed.

Lemma guaranteed_check_witness :
  ~ In (name Hantu)
      (possibleGhosts (mkJournal (set all_indefinite freezing ABSENT) (Num 3))).
Proof.
  apply (proj1 (guaranteed_check
                  (mkJournal (set all_indefinite freezing ABSENT) (Num 3))
                  Hantu freezing Hantu_in_GHOSTS eq_refl)).
  reflexivity.
Defined.

(** For a ghost with both markers the guaranteed check would count the
    fake evidence: with emf present at ceiling 1 the capacity for real
    evidences is 1, the check computes 0 and discards the ghost, which
    passes every other check. *)
Lemma marked_ghost_discarded :
  let this := mkJournal (set all_indefinite emf PRESENT) (Num 1) in
  remainingCapacity this marked_ghost = Num 1
  /\ obtainableRemainingEvidences this = Num 0
  /\ has_found_evidences this marked_ghost = true
  /\ too_many_found this marked_ghost = false
  /\ too_many_absent this marked_ghost = false
  /\ fake_absent this marked_ghost = false
  /\ guaranteed_unobtainable this marked_ghost = true
  /\ possible this marked_ghost = false.
Proof. repeat split. Qed.

(** ** Ruling an evidence out *)

(** With emf present, the rest indefinite and ceiling 3, the ten possible
    ghosts all have emf; once emf is absent, Phantom, which was excluded,
    is possible. *)
Lemma shrink_claim_as_written_fails : ~ shrink_claim_as_written.
Proof.
  intros Hclaim.
  assert (Hbefore :
            forall g, In g GHOSTS ->
                      In (name g)
                        (possibleGhosts
                           (mkJournal (set all_indefinite emf PRESENT) (Num 3))) ->
                      In emf (ghostEvidences g)).
  { intros g Hg Hn. apply mentions_In in Hn. apply includes_In.
    unfold GHOSTS in Hg. simpl in Hg.
    repeat (destruct Hg as [<-|Hg]; [first [reflexivity | discriminate Hn]|]).
    contradiction. }
  specialize (Hclaim (mkJournal (set all_indefinite emf PRESENT) (Num 3))
                emf Hbefore "Phantom").
  apply mentions_In in Hclaim; [discriminate|].
  apply mentions_In. reflexivity.
Qed.

(** Reading "every remaining candidate" as the ghosts possible after the
    change as well does not help: with uv, freezing and orb present at
    ceiling 1 no ghost is possible; once uv is absent The Mimic, which has
    uv, is. *)
Lemma shrink_fails_from_present :
  possibleGhosts
    (mkJournal (mkStates INDEFINITE INDEFINITE PRESENT PRESENT PRESENT
                  INDEFINITE INDEFINITE) (Num 1)) = []
  /\ possibleGhosts
       (with_state
          (mkJournal (mkStates INDEFINITE INDEFINITE PRESENT PRESENT PRESENT
                        INDEFINITE INDEFINITE) (Num 1)) uv ABSENT)
     = ["The Mimic"]
  /\ In uv (ghostEvidences TheMimic).
Proof. repeat split; try reflexivity. simpl. tauto. Qed.

Section RulingOut.

Variable this : Journal.
Variable id : EvidenceID.
Hypothesis Hindefinite : get (evidences this) id = INDEFINITE.

Let after : Journal := with_state this id ABSENT.

Lemma ruled_out_state (e : EvidenceID) (s : EvidenceState) :
  EvidenceState_beq (get (evidences this) e) s = true ->
  s <> INDEFINITE ->
  EvidenceState_beq (get (evidences after) e) s = true.
Proof.
  unfold after. rewrite get_with_state. intros Hs Hne.
  destruct (EvidenceID_beq e id) eqn:E; [|assumption].
  apply EvidenceID_beq_eq in E. subst e.
  rewrite Hindefinite in Hs. apply EvidenceState_beq_eq in Hs. congruence.
Qed.

Lemma ruled_out_present_state (e : EvidenceID) :
  EvidenceState_beq (get (evidences after) e) PRESENT
  = EvidenceState_beq (get (evidences this) e) PRESENT.
Proof.
  unfold after. rewrite get_with_state.
  destruct (EvidenceID_beq e id) eqn:E; [|reflexivity].
  apply EvidenceID_beq_eq in E. subst e. now rewrite Hindefinite.
Qed.

Lemma ruled_out_present : present after = present this.
Proof.
  unfold present. rewrite !ids_in_state_keys.
  apply filter_ext. intros e. apply ruled_out_present_state.
Qed.

Lemma ruled_out_obtainable :
  obtainableRemainingEvidences after = obtainableRemainingEvidences this.
Proof.
  unfold obtainableRemainingEvidences, len.
  now rewrite <- !present_length, ruled_out_present.
Qed.

Lemma ruled_out_absent_count (g : Ghost) :
  (List.length (filter (includes (ghostEvidences g)) (absent this))
   <= List.length (filter (includes (ghostEvidences g)) (absent after)))%nat.
Proof.
  unfold absent. rewrite !ids_in_state_keys, !filter_filter.
  apply filter_length_mono. intros e He.
  apply andb_true_iff in He. destruct He as [Ha Hi].
  apply andb_true_iff. split; [|assumption].
  apply ruled_out_state; [assumption | discriminate].
Qed.

(** Every check that lets a ghost through after the change let it through
    before. *)
Lemma ruled_out_possible (g : Ghost) :
  possible after g = true -> possible this g = true.
Proof.
  rewrite !possible_true_iff.
  unfold has_found_evidences, too_many_found, too_many_absent,
    guaranteed_unobtainable, fake_absent, presentWithoutFake.
  rewrite ruled_out_present, ruled_out_obtainable.
  intros (Hfound & Hcount & Habsent & Hguaranteed & Hfake).
  repeat split; try assumption.
  - unfold len in *.
    exact (num_gtb_mono _ _ _ (ruled_out_absent_count g) Habsent).
  - destruct (guaranteed g) as [e|]; [|reflexivity].
    rewrite ruled_out_present_state in Hguaranteed.
    destruct (EvidenceState_beq (get (evidences this) e) ABSENT) eqn:E.
    + rewrite (ruled_out_state e ABSENT E) in Hguaranteed by discriminate.
      discriminate.
    + apply orb_false_iff in Hguaranteed. now destruct Hguaranteed.
  - destruct (fake g) as [f|]; [|reflexivity].
    unfold absent in *. rewrite includes_ids_in_state in *.
    destruct (EvidenceState_beq (get (evidences this) f) ABSENT) eqn:E;
      [|reflexivity].
    rewrite (ruled_out_state f ABSENT E) in Hfake by discriminate.
    discriminate.
Qed.

End RulingOut.

(** C8, amended. Changing the state of one evidence from indefinite to
    absent never grows the result: every name returned after the change was
    returned before it, whether or not the evidence belongs to every ghost
    that was possible.  (From present to absent the result can grow.) *)
Theorem ruling_out_shrinks (this : Journal) (id : EvidenceID) :
  get (evidences this) id = INDEFINITE ->
  forall n,
    In n (possibleGhosts (with_state this id ABSENT)) ->
    In n (possibleGhosts this).
Proof.
  intros Hi n. unfold possibleGhosts. rewrite !in_map_iff.
  intros [g [Hn Hg]]. exists g. split; [assumption|].
  apply filter_In in Hg. destruct Hg as [Hin Hp].
  apply filter_In. split; [assumption|].
  now apply (ruled_out_possible this id Hi).
Qed.

Lemma ruling_out_shrinks_witness :
  get (evidences new_Journal) emf = INDEFINITE
  /\ In "Phantom" (possibleGhosts (with_state new_Journal emf ABSENT))
  /\ In "Phantom" (possibleGhosts new_Journal).
Proof.
  split; [reflexivity|].
  split; [vm_compute; tauto|].
  apply (ruling_out_shrinks new_Journal emf eq_refl "Phantom").
  vm_compute. tauto.
Defined.

(** ** The command context: running the methods *)

Ltac run_methods :=
  unfold handle, on_interaction, interactionFilter, canInteract, on_button,
    on_evidence_count, on_idle, updateMessage, makeEmbed, refreshTimeout,
    store_journal, terminate, bind, read, write, call, ret, throw,
    context_after, effects_of in *;
  simpl in *.

Ltac case_matches :=
  repeat match goal with
         | |- context [match ?x with _ => _ end] =>
             match x with
             | context [match _ with _ => _ end] => fail 1
             | _ => destruct x eqn:?; simpl in *
             end
         end.

Lemma asComponents_new_Journal :
  asComponents new_Journal = Return (journal_rows new_Journal 3).
Proof. reflexivity. Qed.

Lemma existsb_eqb_In (x : string) (l : list string) :
  existsb (String.eqb x) l = true <-> In x l.
Proof. exact (mentions_In l x). Qed.

(** An interaction the filter accepts runs the handler of its component. *)
Lemma handle_accepted (this : CommandContext) (now : Z)
    (i : MessageComponentInteraction) (ids : list string) :
  listening this (interaction_type i) = true ->
  allowedUserIDs_ this = Some ids ->
  In (user i) ids ->
  handle now (Interaction i) this
  = match data i with
    | ButtonData customId => on_button now customId this
    | StringSelectData values => on_evidence_count now values this
    end.
Proof.
  intros Hl Ha Hin. apply existsb_eqb_In in Hin.
  unfold handle, on_interaction, interactionFilter, canInteract, bind, read,
    ret. simpl.
  rewrite Hl, Ha, Hin. simpl.
  destruct (data i) as [customId|values].
  - destruct (on_button now customId this) as [[r c] out]. reflexivity.
  - destruct (on_evidence_count now values this) as [[r c] out]. reflexivity.
Qed.

(** The button handler stores the toggled state, whatever happens to the
    rendering afterwards. *)
Lemma on_button_journal (this : CommandContext) (j : Journal) (now : Z)
    (id : EvidenceID) :
  evidences_ this = Some j ->
  evidences_ (context_after (on_button now id this))
  = Some (with_state j id (toggle (get (evidences j) id))).
Proof.
  intros Hj. run_methods.
  destruct (idleTimeout_ this); simpl; rewrite Hj; simpl;
    destruct (asComponents _); reflexivity.
Qed.

(** The evidence count handler stores what [parseInt] returns. *)
Lemma on_evidence_count_journal (this : CommandContext) (j : Journal)
    (now : Z) (values : list string) :
  evidences_ this = Some j ->
  evidences_ (context_after (on_evidence_count now values this))
  = Some (mkJournal (evidences j) (parse_first values)).
Proof.
  intros Hj. run_methods.
  destruct (idleTimeout_ this); simpl; rewrite Hj; simpl;
    destruct (asComponents _); reflexivity.
Qed.

(** A ceiling outside 1, 2 and 3 is stored all the same; it is the
    rendering that fails afterwards: [asComponents] throws and no update is
    sent. *)
Lemma invalid_ceiling_not_rendered (this : CommandContext) (j : Journal)
    (now : Z) (values : list string) :
  evidences_ this = Some j ->
  ~ valid_ceiling (parse_first values) ->
  fst (fst (on_evidence_count now values this))
  = Throw "TypeError: Cannot read properties of undefined"
  /\ effects_of (on_evidence_count now values this) = [].
Proof.
  intros Hj Hinvalid.
  pose proof (asComponents_invalid_ceiling
                (mkJournal (evidences j) (parse_first values)) Hinvalid)
    as Hthrow.
  run_methods.
  destruct (idleTimeout_ this); simpl; rewrite Hj; simpl; rewrite Hthrow;
    split; reflexivity.
Qed.

Lemma set_toggle_thrice (m : EvidenceStates) (id : EvidenceID) :
  let m1 := set m id (toggle (get m id)) in
  let m2 := set m1 id (toggle (get m1 id)) in
  set m2 id (toggle (get m2 id)) = m.
Proof.
  split_states m. destruct id; simpl;
    match goal with
    | |- context [toggle ?s] => destruct s; reflexivity
    end.
Qed.

(** C6. The toggle maps absent to indefinite, indefinite to present and
    present to absent; three toggles give the state back.  The button
    handler stores exactly this next state for the evidence of the button
    (the other evidences and the ceiling are as before), and three presses
    of the same button leave the journal as it was. *)
Theorem toggle_rotation (this : CommandContext) (j : Journal)
    (now1 now2 now3 : Z) (id : EvidenceID) :
  evidences_ this = Some j ->
  toggle ABSENT = INDEFINITE
  /\ toggle INDEFINITE = PRESENT
  /\ toggle PRESENT = ABSENT
  /\ (forall s, toggle (toggle (toggle s)) = s)
  /\ evidences_ (context_after (on_button now1 id this))
     = Some (with_state j id (toggle (get (evidences j) id)))
  /\ evidences_
       (context_after
          (on_button now3 id
             (context_after
                (on_button now2 id
                   (context_after (on_button now1 id this))))))
     = Some j.
Proof.
  intros Hj. repeat split.
  - intros s. destruct s; reflexivity.
  - now apply on_button_journal.
  - pose proof (on_button_journal this j now1 id Hj) as H1.
    pose proof (on_button_journal _ _ now2 id H1) as H2.
    pose proof (on_button_journal _ _ now3 id H2) as H3.
    rewrite H3. f_equal. destruct j as [m a]. unfold with_state. simpl.
    f_equal. apply set_toggle_thrice.
Qed.

Lemma toggle_rotation_witness :
  evidences_ example_context = Some new_Journal
  /\ evidences_
       (context_after
          (on_button 3 orb
             (context_after
                (on_button 2 orb
                   (context_after (on_button 1 orb example_context))))))
     = Some new_Journal.
Proof.
  split; [reflexivity|].
  apply (toggle_rotation example_context new_Journal 1 2 3 orb). reflexivity.
Defined.

(** The button handler leaves the allowed users and the collectors alone. *)
Lemma on_button_frame (this : CommandContext) (j : Journal) (now : Z)
    (id : EvidenceID) :
  evidences_ this = Some j ->
  allowedUserIDs_ (context_after (on_button now id this))
  = allowedUserIDs_ this
  /\ collectors_ (context_after (on_button now id this)) = collectors_ this.
Proof.
  intros Hj. run_methods.
  destruct (idleTimeout_ this); simpl; rewrite Hj; simpl;
    destruct (asComponents _); split; reflexivity.
Qed.

Lemma press_accepted (this : CommandContext) (j : Journal) (now : Z)
    (u : string) (id : EvidenceID) (ids : list string) :
  listening this ButtonType = true ->
  allowedUserIDs_ this = Some ids ->
  In u ids ->
  evidences_ this = Some j ->
  let this' := context_after (handle now (press u id) this) in
  listening this' ButtonType = true
  /\ allowedUserIDs_ this' = Some ids
  /\ evidences_ this' = Some (with_state j id (toggle (get (evidences j) id))).
Proof.
  intros Hl Ha Hin Hj. unfold press.
  rewrite (handle_accepted this now (mkInteraction u (ButtonData id)) ids
             Hl Ha Hin).
  simpl.
  destruct (on_button_frame this j now id Hj) as [Ha' Hc'].
  repeat split.
  - unfold listening in *. now rewrite Hc'.
  - now rewrite Ha'.
  - now apply on_button_journal.
Qed.

(** Three accepted presses of one button, at any times, leave the journal of
    a listening context as it was. *)
Lemma three_presses_restore (this : CommandContext) (j : Journal)
    (t1 t2 t3 : Z) (u : string) (id : EvidenceID) (ids : list string) :
  listening this ButtonType = true ->
  allowedUserIDs_ this = Some ids ->
  In u ids ->
  evidences_ this = Some j ->
  evidences_ (run [(t1, press u id); (t2, press u id); (t3, press u id)] this)
  = Some j.
Proof.
  intros Hl Ha Hin Hj. cbn [run].
  destruct (press_accepted this j t1 u id ids Hl Ha Hin Hj) as (Hl1 & Ha1 & Hj1).
  destruct (press_accepted _ _ t2 u id ids Hl1 Ha1 Hin Hj1) as (Hl2 & Ha2 & Hj2).
  destruct (press_accepted _ _ t3 u id ids Hl2 Ha2 Hin Hj2) as (_ & _ & Hj3).
  rewrite Hj3. f_equal. destruct j as [m a]. unfold with_state. simpl.
  f_equal. apply set_toggle_thrice.
Qed.

(** ** Contexts a command can be in *)

Lemma new_CommandContext_initialized (now : Z)
    (interaction : ChatInputCommandInteraction)
    (additionalUsers : list string) :
  initialized
    (context_after (new_CommandContext now interaction additionalUsers)).
Proof.
  unfold initialized, new_CommandContext, setup, fresh_context.
  rewrite asComponents_new_Journal.
  destruct interaction as [u [[|]|] [| |m]]; run_methods;
    intros H; try contradiction; repeat split; discriminate.
Qed.

(** No event changes the allowed users or the message, creates collectors,
    or unsets the journal. *)
Lemma handle_frame (this : CommandContext) (now : Z) (e : Event) :
  let this' := context_after (handle now e this) in
  allowedUserIDs_ this' = allowedUserIDs_ this
  /\ message_ this' = message_ this
  /\ (collectors_ this = None -> collectors_ this' = None)
  /\ (evidences_ this <> None -> evidences_ this' <> None).
Proof.
  destruct this as [a j m c t x].
  destruct e as [[u [id|vs]]| |]; run_methods; case_matches;
    repeat split; intros; subst; simpl in *; congruence.
Qed.

Lemma reachable_initialized (this : CommandContext) :
  reachable this -> initialized this.
Proof.
  induction 1 as [now interaction additionalUsers | this now e Hr IH].
  - apply new_CommandContext_initialized.
  - destruct (handle_frame this now e) as (Ha & Hm & Hc & Hj).
    intros Hcs. unfold initialized in IH.
    destruct (collectors_ this) as [cs|] eqn:E.
    + destruct IH as (IHa & IHj & IHm); [discriminate|].
      rewrite Ha, Hm. repeat split; try assumption. now apply Hj.
    + exfalso. apply Hcs. now apply Hc.
Qed.

Lemma listening_collectors (this : CommandContext) (t : ComponentType) :
  listening this t = true -> collectors_ this <> None.
Proof.
  unfold listening. destruct (collectors_ this); [discriminate|].
  intros H. discriminate.
Qed.

(** ** An actor who was not invited *)

(** C7. An interaction whose user is not among the allowed users, reaching a
    context that listens, is answered with the denial notice and nothing
    else: the handler does not run, so the context after the event is the
    context before it (every evidence state, the ceiling, the idle timeout
    with its deadline, the collectors) and no update of the message is
    sent. *)
Theorem uninvited_actor (this : CommandContext) (now : Z)
    (i : MessageComponentInteraction) :
  reachable this ->
  listening this (interaction_type i) = true ->
  (forall ids, allowedUserIDs_ this = Some ids -> ~ In (user i) ids) ->
  handle now (Interaction i) this
  = (Return tt, this,
     [ReplyEphemeral "You were not invited to use this journal."]).
Proof.
  intros Hr Hl Hout.
  destruct (reachable_initialized this Hr (listening_collectors _ _ Hl))
    as (Ha & _ & _).
  destruct (allowedUserIDs_ this) as [ids|] eqn:E; [|contradiction].
  specialize (Hout ids eq_refl).
  assert (Hex : existsb (String.eqb (user i)) ids = false).
  { destruct (existsb (String.eqb (user i)) ids) eqn:Hex; [|reflexivity].
    apply existsb_eqb_In in Hex. contradiction. }
  unfold handle, on_interaction, interactionFilter, canInteract, bind, read,
    call, ret.
  simpl. rewrite Hl, E, Hex. reflexivity.
Qed.

Lemma uninvited_actor_witness :
  handle 5 (Interaction (mkInteraction "eve" (ButtonData emf)))
    example_context
  = (Return tt, example_context,
     [ReplyEphemeral "You were not invited to use this journal."]).
Proof.
  apply (uninvited_actor example_context 5
           (mkInteraction "eve" (ButtonData emf))).
  - apply reachable_new.
  - reflexivity.
  - intros ids Hids. vm_compute in Hids. injection Hids as <-. simpl.
    intros [H|[H|[]]]; discriminate.
Defined.

(** ** Changing the ceiling *)

(** The value "4" from an allowed user is written to the ceiling. *)
Lemma ceiling_claim_as_written_fails : ~ ceiling_claim_as_written.
Proof.
  intros Hclaim.
  specialize (Hclaim example_context 5
                (mkInteraction "alice" (StringSelectData ["4"])) ["4"]
                new_Journal (reachable_new _ _ _) eq_refl).
  assert (Hinvalid : ~ valid_ceiling (parse_first ["4"]))
    by (intros [H|[H|H]]; discriminate).
  specialize (Hclaim Hinvalid eq_refl).
  vm_compute in Hclaim. discriminate.
Qed.

Lemma asComponents_offered_values (this : Journal)
    (rows : list ActionRowBuilder) :
  asComponents this = Return rows -> offered_values rows = ["3"; "2"; "1"].
Proof.
  unfold asComponents, setDefault_at, at_index.
  destruct (num_sub MAX_EVIDENCES (availableEvidences this)) as [|z];
    [discriminate|].
  destruct (z <? 0); [discriminate|].
  destruct (Z.to_nat z) as [|[|[|n]]]; simpl;
    try (destruct n; discriminate);
    intros H; injection H as <-; reflexivity.
Qed.

(** C5, amended. The handler of a ceiling change validates nothing: for an
    allowed user on a listening context it writes whatever [parseInt] makes
    of the chosen value to the ceiling, in range or not, and leaves every
    evidence state as it was.  The menu of a rendered journal offers the
    values "3", "2" and "1" only, and for each of these the ceiling written
    is 3, 2 or 1. *)
Theorem ceiling_written_unchecked (this : CommandContext) (j : Journal)
    (now : Z) (i : MessageComponentInteraction) (values : list string)
    (ids : list string) :
  listening this StringSelectType = true ->
  allowedUserIDs_ this = Some ids ->
  In (user i) ids ->
  data i = StringSelectData values ->
  evidences_ this = Some j ->
  evidences_ (context_after (handle now (Interaction i) this))
  = Some (mkJournal (evidences j) (parse_first values))
  /\ (forall rows v rest,
         asComponents j = Return rows ->
         In v (offered_values rows) ->
         valid_ceiling (parse_first (v :: rest))).
Proof.
  intros Hl Ha Hin Hd Hj. split.
  - assert (Hl' : listening this (interaction_type i) = true)
      by (unfold interaction_type; now rewrite Hd).
    rewrite (handle_accepted this now i ids Hl' Ha Hin), Hd.
    now apply on_evidence_count_journal.
  - intros rows v rest Hrows Hv.
    rewrite (asComponents_offered_values j rows Hrows) in Hv.
    unfold valid_ceiling.
    destruct Hv as [<-|[<-|[<-|[]]]]; simpl; tauto.
Qed.

Lemma ceiling_written_unchecked_witness :
  evidences_
    (context_after
       (handle 5 (Interaction (mkInteraction "bob" (StringSelectData ["2"])))
          example_context))
  = Some (mkJournal all_indefinite (Num 2)).
Proof.
  apply (proj1 (ceiling_written_unchecked example_context new_Journal 5
                  (mkInteraction "bob" (StringSelectData ["2"])) ["2"]
                  ["alice"; "bob"] eq_refl eq_refl
                  (or_intror (or_introl eq_refl)) eq_refl eq_refl)).
Defined.

(** ** A render that fails *)

(** The rejection of an update terminates the context, whatever its state. *)
Lemma update_rejected_terminates (this : CommandContext) (now : Z) :
  terminated_ (context_after (handle now UpdateRejected this)) = true.
Proof. run_methods. destruct (message_ this); reflexivity. Qed.

(** C4, on the code. When the first reply is rejected (or its fetch is),
    the constructor returns without terminating: the context is left with
    [terminated] false, without message, collectors or idle timeout, and no
    deletion is requested.  The rejection of a later update does terminate
    the context. *)
Theorem initial_reply_rejected_not_terminated (now : Z) (u : string)
    (additionalUsers : list string) (this : CommandContext) :
  (let r := new_CommandContext now (mkCommand u (Some true) ReplyRejected)
              additionalUsers in
   fst (fst r) = Return tt
   /\ terminated_ (context_after r) = false
   /\ message_ (context_after r) = None
   /\ collectors_ (context_after r) = None
   /\ idleTimeout_ (context_after r) = None
   /\ effects_of r
      = [ReplyJournal (journal_embed new_Journal) (journal_rows new_Journal 3)])
  /\ terminated_
       (context_after
          (new_CommandContext now (mkCommand u (Some true) FetchRejected)
             additionalUsers)) = false
  /\ terminated_ (context_after (handle now UpdateRejected this)) = true.
Proof.
  split; [|split].
  - unfold new_CommandContext, setup. rewrite asComponents_new_Journal.
    repeat split.
  - unfold new_CommandContext, setup. rewrite asComponents_new_Journal.
    reflexivity.
  - apply update_rejected_terminates.
Qed.

(** * Further properties of the journal *)

(** ** The result follows the catalogue *)

Section Subsequences.

Context {A B : Type}.

Lemma subsequence_filter (p : A -> bool) (l : list A) :
  subsequence (filter p l) l.
Proof.
  induction l as [|x l IH]; simpl; [constructor|].
  destruct (p x); now constructor.
Qed.

Lemma subsequence_map (f : A -> B) (l l' : list A) :
  subsequence l l' -> subsequence (map f l) (map f l').
Proof. induction 1; simpl; now constructor. Qed.

Lemma subsequence_In (l l' : list A) (x : A) :
  subsequence l l' -> In x l -> In x l'.
Proof.
  induction 1 as [|y l l' Hs IH|y l l' Hs IH]; simpl; intros Hin.
  - assumption.
  - destruct Hin as [->|Hin]; [now left | right; now apply IH].
  - right. now apply IH.
Qed.

Lemma subsequence_NoDup (l l' : list A) :
  subsequence l l' -> NoDup l' -> NoDup l.
Proof.
  induction 1 as [|y l l' Hs IH|y l l' Hs IH]; intros Hnd.
  - assumption.
  - inversion Hnd as [|? ? Hnotin Hnd']; subst. constructor.
    + intros Hin. apply Hnotin. now apply (subsequence_In l l').
    + now apply IH.
  - inversion Hnd; subst. now apply IH.
Qed.

End Subsequences.

(** X1. Whatever the journal, the names [possibleGhosts] returns are names
    of the catalogue, in the order of the catalogue, and no name comes
    twice. *)
Theorem possibleGhosts_catalogue_order (this : Journal) :
  subsequence (possibleGhosts this) (map name GHOSTS)
  /\ NoDup (possibleGhosts this).
Proof.
  assert (Hs : subsequence (possibleGhosts this) (map name GHOSTS))
    by (unfold possibleGhosts; apply subsequence_map, subsequence_filter).
  split; [assumption|].
  exact (subsequence_NoDup _ _ Hs GHOSTS_names_NoDup).
Qed.

(** ** What a possible ghost agrees with *)

Lemma NoDup_KEYS : NoDup KEYS.
Proof.
  unfold KEYS.
  repeat (constructor; [simpl; intuition discriminate|]). constructor.
Qed.

Lemma presentWithoutFake_keys (this : Journal) (g : Ghost) :
  presentWithoutFake this g
  = filter
      (fun e =>
         EvidenceState_beq (get (evidences this) e) PRESENT
         && negb (existsb
                    (fun v => match v with
                              | Some x => EvidenceID_beq e x
                              | None => false
                              end) [fake g]))
      KEYS.
Proof.
  unfold presentWithoutFake, difference, present.
  now rewrite ids_in_state_keys, filter_filter.
Qed.

Lemma NoDup_presentWithoutFake (this : Journal) (g : Ghost) :
  NoDup (presentWithoutFake this g).
Proof.
  rewrite presentWithoutFake_keys. apply NoDup_filter, NoDup_KEYS.
Qed.

(** The membership check, as an inclusion. *)
Lemma has_found_evidences_incl (this : Journal) (g : Ghost) :
  has_found_evidences this g = true <->
  incl (presentWithoutFake this g) (ghostEvidences g).
Proof.
  unfold has_found_evidences, incl. rewrite forallb_forall.
  split; intros H e He; apply includes_In; now apply H.
Qed.

Lemma absent_spec (this : Journal) (e : EvidenceID) :
  In e (absent this) <-> get (evidences this) e = ABSENT.
Proof.
  rewrite <- includes_In. unfold absent.
  now rewrite includes_ids_in_state, EvidenceState_beq_eq.
Qed.

(** With every evidence available, one absent evidence of the ghost is one
    too many. *)
Lemma too_many_absent_full (this : Journal) (g : Ghost) (e : EvidenceID) :
  availableEvidences this = Num 3 ->
  In e (ghostEvidences g) ->
  get (evidences this) e = ABSENT ->
  too_many_absent this g = true.
Proof.
  intros Ha Hin Habsent. unfold too_many_absent, len. rewrite Ha. simpl.
  apply Z.ltb_lt.
  assert (Hf : In e (filter (includes (ghostEvidences g)) (absent this))).
  { apply filter_In. split; [now apply absent_spec | now apply includes_In]. }
  destruct (filter (includes (ghostEvidences g)) (absent this));
    [contradiction | simpl; lia].
Qed.

(** X2. A ghost of the catalogue that [possibleGhosts] returns agrees with
    the journal: every present evidence is one of its evidences or its fake
    one; its guaranteed evidence and its fake evidence are not absent; and
    at ceiling 3 none of its evidences is absent. *)
Theorem possible_ghost_consistent (this : Journal) (g : Ghost) :
  In g GHOSTS ->
  In (name g) (possibleGhosts this) ->
  (forall e, get (evidences this) e = PRESENT ->
             In e (ghostEvidences g) \/ fake g = Some e)
  /\ (forall e, guaranteed g = Some e -> get (evidences this) e <> ABSENT)
  /\ (forall e, fake g = Some e -> get (evidences this) e <> ABSENT)
  /\ (availableEvidences this = Num 3 ->
      forall e, In e (ghostEvidences g) -> get (evidences this) e <> ABSENT).
Proof.
  intros Hg Hin.
  apply (possibleGhosts_spec this g Hg), possible_true_iff in Hin.
  destruct Hin as (Hfound & _ & Habsent & Hguaranteed & Hfake).
  apply has_found_evidences_incl in Hfound.
  split; [|split; [|split]].
  - intros e He.
    destruct (fake g) as [f|] eqn:Ef.
    + destruct (EvidenceID_eq_dec f e) as [->|Hne]; [now right|].
      left. apply Hfound, presentWithoutFake_spec. rewrite Ef.
      split; [assumption | congruence].
    + left. apply Hfound, presentWithoutFake_spec. rewrite Ef.
      split; [assumption | discriminate].
  - intros e He Ha.
    rewrite (guaranteed_unobtainable_spec this g e He), Ha in Hguaranteed.
    discriminate.
  - intros e He Ha. unfold fake_absent in Hfake. rewrite He in Hfake.
    unfold absent in Hfake. rewrite includes_ids_in_state, Ha in Hfake.
    discriminate.
  - intros Hceiling e He Ha.
    rewrite (too_many_absent_full this g e Hceiling He Ha) in Habsent.
    discriminate.
Qed.

Lemma possible_ghost_consistent_witness :
  In TheMimic GHOSTS
  /\ In (name TheMimic)
       (possibleGhosts (mkJournal (set all_indefinite orb PRESENT) (Num 3)))
  /\ (In orb (ghostEvidences TheMimic) \/ fake TheMimic = Some orb).
Proof.
  split; [exact TheMimic_in_GHOSTS|].
  split; [vm_compute; tauto|].
  apply (proj1 (possible_ghost_consistent
                  (mkJournal (set all_indefinite orb PRESENT) (Num 3))
                  TheMimic TheMimic_in_GHOSTS
                  ltac:(vm_compute; tauto))).
  reflexivity.
Defined.

(** X3. Whatever the ceiling, a number outside 1 to 3 or [NaN] included, a
    ghost that [possibleGhosts] returns has at most three present evidences
    besides its fake one: the membership check alone bounds them. *)
Theorem possible_ghost_three_present (this : Journal) (g : Ghost) :
  In g GHOSTS ->
  In (name g) (possibleGhosts this) ->
  (List.length (presentWithoutFake this g) <= 3)%nat.
Proof.
  intros Hg Hin.
  apply (possibleGhosts_spec this g Hg), possible_true_iff in Hin.
  destruct Hin as (Hfound & _).
  apply has_found_evidences_incl in Hfound.
  pose proof GHOSTS_entries_well_formed as Hall.
  rewrite Forall_forall in Hall. destruct (Hall g Hg) as (Hlen & _).
  rewrite <- Hlen.
  exact (NoDup_incl_length (NoDup_presentWithoutFake this g) Hfound).
Qed.

Lemma possible_ghost_three_present_witness :
  In Hantu GHOSTS
  /\ In (name Hantu) (possibleGhosts (mkJournal all_indefinite NaN))
  /\ (List.length (presentWithoutFake (mkJournal all_indefinite NaN) Hantu)
      <= 3)%nat.
Proof.
  split; [exact Hantu_in_GHOSTS|].
  split; [vm_compute; tauto|].
  apply (possible_ghost_three_present (mkJournal all_indefinite NaN) Hantu
           Hantu_in_GHOSTS).
  vm_compute. tauto.
Defined.

(** ** Finding an evidence *)

Section Finding.

Variable this : Journal.
Variable id : EvidenceID.
Hypothesis Hindefinite : get (evidences this) id = INDEFINITE.

Let found : Journal := with_state this id PRESENT.

Lemma found_absent_state (e : EvidenceID) :
  EvidenceState_beq (get (evidences found) e) ABSENT
  = EvidenceState_beq (get (evidences this) e) ABSENT.
Proof.
  unfold found. rewrite get_with_state.
  destruct (EvidenceID_beq e id) eqn:E; [|reflexivity].
  apply EvidenceID_beq_eq in E. subst e. now rewrite Hindefinite.
Qed.

Lemma found_absent : absent found = absent this.
Proof.
  unfold absent. rewrite !ids_in_state_keys.
  apply filter_ext. intros e. apply found_absent_state.
Qed.

Lemma found_present_state (e : EvidenceID) :
  EvidenceState_beq (get (evidences this) e) PRESENT = true ->
  EvidenceState_beq (get (evidences found) e) PRESENT = true.
Proof.
  unfold found. rewrite get_with_state. intros H.
  now destruct (EvidenceID_beq e id).
Qed.

Lemma found_presentWithoutFake_incl (g : Ghost) :
  incl (presentWithoutFake this g) (presentWithoutFake found g).
Proof.
  intros e He. apply presentWithoutFake_spec in He. destruct He as [Hp Hf].
  apply presentWithoutFake_spec. split; [|assumption].
  apply EvidenceState_beq_eq, found_present_state.
  now apply EvidenceState_beq_eq.
Qed.

Lemma found_presentWithoutFake_length (g : Ghost) :
  (List.length (presentWithoutFake this g)
   <= List.length (presentWithoutFake found g))%nat.
Proof.
  rewrite !presentWithoutFake_keys. apply filter_length_mono.
  intros e He. apply andb_true_iff in He. destruct He as [Hp Hf].
  apply andb_true_iff. split; [now apply found_present_state | assumption].
Qed.

(** One more evidence is present. *)
Lemma found_present_length :
  List.length (present found) = S (List.length (present this)).
Proof.
  unfold found, present. rewrite !ids_in_state_keys.
  destruct this as [m a]. unfold with_state. simpl in *.
  split_states m.
  destruct id; simpl in Hindefinite; subst; simpl;
    repeat match goal with
           | |- context [EvidenceState_beq ?s PRESENT] =>
               is_var s; destruct s; simpl
           end;
    reflexivity.
Qed.

Lemma found_obtainable (a : Z) :
  availableEvidences this = Num a ->
  obtainableRemainingEvidences this
  = Num (a - Z.of_nat (List.length (present this)))
  /\ obtainableRemainingEvidences found
     = Num (a - Z.of_nat (List.length (present this)) - 1).
Proof.
  intros Ha. unfold obtainableRemainingEvidences, len.
  rewrite <- !present_length, found_present_length.
  unfold found, with_state. simpl. rewrite Ha. simpl.
  split; f_equal. lia.
Qed.

(** A ghost without both markers that passes every check once the evidence
    is found passed them before. *)
Lemma found_possible (g : Ghost) :
  guaranteed g = None \/ fake g = None ->
  possible found g = true -> possible this g = true.
Proof.
  intros Hmarkers. rewrite !possible_true_iff.
  intros (Hfound & Hcount & Habsent & Hguaranteed & Hfake).
  split; [|split; [|split; [|split]]].
  - apply has_found_evidences_incl. apply has_found_evidences_incl in Hfound.
    intros e He. now apply Hfound, found_presentWithoutFake_incl.
  - unfold too_many_found, len in *.
    exact (num_gtb_mono _ _ _ (found_presentWithoutFake_length g) Hcount).
  - unfold too_many_absent in *. now rewrite found_absent in Habsent.
  - destruct (guaranteed g) as [e|] eqn:Eg;
      [|unfold guaranteed_unobtainable; now rewrite Eg].
    destruct Hmarkers as [Hn|Hf]; [discriminate|].
    rewrite (guaranteed_unobtainable_spec this g e Eg).
    rewrite (guaranteed_unobtainable_spec found g e Eg) in Hguaranteed.
    destruct (get (evidences this) e) eqn:Ee; [reflexivity| |].
    + destruct (availableEvidences this) as [|a] eqn:Ea;
        [unfold obtainableRemainingEvidences; rewrite Ea; reflexivity|].
      destruct (found_obtainable a Ea) as [Hbefore Hafter].
      rewrite Hbefore. simpl. apply Z.ltb_ge.
      unfold found in Hguaranteed. rewrite get_with_state in Hguaranteed.
      destruct (EvidenceID_beq e id) eqn:E.
      * unfold too_many_found, len in Hcount.
        rewrite (presentWithoutFake_no_fake found g Hf) in Hcount.
        rewrite found_present_length in Hcount.
        unfold found, with_state in Hcount. simpl in Hcount.
        rewrite Ea in Hcount. simpl in Hcount.
        apply Z.ltb_ge in Hcount. lia.
      * rewrite Ee in Hguaranteed. fold found in Hguaranteed.
        rewrite Hafter in Hguaranteed. simpl in Hguaranteed.
        apply Z.ltb_ge in Hguaranteed. lia.
    + exfalso. pose proof (found_absent_state e) as Hs.
      rewrite Ee in Hs. apply EvidenceState_beq_eq in Hs.
      rewrite Hs in Hguaranteed. discriminate.
  - unfold fake_absent in *. now rewrite found_absent in Hfake.
Qed.

End Finding.

(** X4. Changing the state of one evidence from indefinite to present never
    grows the result: every name [possibleGhosts] returns after the change
    was returned before it.  (Together with the change to absent: an
    observation made on an indefinite evidence only narrows the
    candidates.) *)
Theorem finding_shrinks (this : Journal) (id : EvidenceID) :
  get (evidences this) id = INDEFINITE ->
  forall n,
    In n (possibleGhosts (with_state this id PRESENT)) ->
    In n (possibleGhosts this).
Proof.
  intros Hi n. unfold possibleGhosts. rewrite !in_map_iff.
  intros [g [Hn Hg]]. exists g. split; [assumption|].
  apply filter_In in Hg. destruct Hg as [Hin Hp].
  apply filter_In. split; [assumption|].
  apply (found_possible this id Hi g); [|assumption].
  pose proof GHOSTS_entries_well_formed as Hall.
  rewrite Forall_forall in Hall.
  now destruct (Hall g Hin) as (_ & _ & Hmarkers & _).
Qed.

Lemma finding_shrinks_witness :
  get (evidences new_Journal) emf = INDEFINITE
  /\ In "Spirit" (possibleGhosts (with_state new_Journal emf PRESENT))
  /\ In "Spirit" (possibleGhosts new_Journal).
Proof.
  split; [reflexivity|].
  split; [vm_compute; tauto|].
  apply (finding_shrinks new_Journal emf eq_refl "Spirit").
  vm_compute. tauto.
Defined.

(** ** What the components show *)

Lemma valid_ceiling_dec (n : number) : {valid_ceiling n} + {~ valid_ceiling n}.
Proof.
  unfold valid_ceiling. destruct n as [|z].
  - right. intros [H|[H|H]]; discriminate.
  - destruct (Z.eq_dec z 1) as [->|H1]; [left; tauto|].
    destruct (Z.eq_dec z 2) as [->|H2]; [left; tauto|].
    destruct (Z.eq_dec z 3) as [->|H3]; [left; tauto|].
    right. intros [H|[H|H]]; congruence.
Qed.

(** When [asComponents] returns, the ceiling is 1, 2 or 3 and the rows are
    the three rows of the journal. *)
Lemma asComponents_returned (this : Journal) (rows : list ActionRowBuilder) :
  asComponents this = Return rows ->
  exists c,
    1 <= c <= 3
    /\ availableEvidences this = Num c
    /\ rows = journal_rows this c.
Proof.
  intros Hrows.
  destruct (valid_ceiling_dec (availableEvidences this)) as [Hv|Hv].
  - assert (exists c, availableEvidences this = Num c /\ 1 <= c <= 3)
      as [c [Ha Hr]]
        by (destruct Hv as [H|[H|H]]; rewrite H; eexists; split;
            try reflexivity; lia).
    exists c. rewrite (asComponents_valid this c Ha Hr) in Hrows.
    injection Hrows as <-. now repeat split.
  - rewrite (asComponents_invalid_ceiling this Hv) in Hrows. discriminate.
Qed.

(** X5. [asComponents] returns exactly when the ceiling is 1, 2 or 3; for
    every other ceiling, [NaN] included, it throws the [TypeError] of
    [options[...].setDefault] before any row is built. *)
Theorem asComponents_returns_iff (this : Journal) :
  ((exists rows, asComponents this = Return rows)
   <-> valid_ceiling (availableEvidences this))
  /\ ((asComponents this
       = Throw "TypeError: Cannot read properties of undefined")
      <-> ~ valid_ceiling (availableEvidences this)).
Proof.
  destruct (valid_ceiling_dec (availableEvidences this)) as [Hv|Hv].
  - assert (exists c, availableEvidences this = Num c /\ 1 <= c <= 3)
      as [c [Ha Hr]]
        by (destruct Hv as [H|[H|H]]; rewrite H; eexists; split;
            try reflexivity; lia).
    rewrite (asComponents_valid this c Ha Hr).
    split; split; intros H; try assumption; try discriminate.
    + eexists. reflexivity.
    + contradiction.
  - rewrite (asComponents_invalid_ceiling this Hv).
    split; split; intros H; try assumption; try reflexivity.
    + destruct H as [rows H]. discriminate.
    + contradiction.
Qed.

Lemma asComponents_returns_iff_witness :
  ~ valid_ceiling (availableEvidences (mkJournal all_indefinite NaN))
  /\ asComponents (mkJournal all_indefinite NaN)
     = Throw "TypeError: Cannot read properties of undefined".
Proof.
  assert (H : ~ valid_ceiling (availableEvidences (mkJournal all_indefinite NaN)))
    by (intros [H|[H|H]]; discriminate).
  split; [exact H|].
  apply (proj2 (proj2 (asComponents_returns_iff
                         (mkJournal all_indefinite NaN)))).
  exact H.
Defined.

Lemma style_state (s1 s2 : EvidenceState) :
  (if EvidenceState_beq s1 PRESENT then Primary
   else if EvidenceState_beq s1 INDEFINITE then Secondary else Danger)
  = (if EvidenceState_beq s2 PRESENT then Primary
     else if EvidenceState_beq s2 INDEFINITE then Secondary else Danger) ->
  s1 = s2.
Proof. destruct s1, s2; simpl; congruence. Qed.

Lemma states_by_get (m1 m2 : EvidenceStates) :
  (forall id, get m1 id = get m2 id) -> m1 = m2.
Proof.
  intros H. destruct m1, m2.
  pose proof (H dots). pose proof (H emf). pose proof (H uv).
  pose proof (H freezing). pose proof (H orb). pose proof (H writing).
  pose proof (H box). simpl in *. congruence.
Qed.

(** X6. The components determine the journal: two journals for which
    [asComponents] returns the same rows have the same evidence states and
    the same ceiling. *)
Theorem asComponents_injective (j1 j2 : Journal)
    (rows : list ActionRowBuilder) :
  asComponents j1 = Return rows ->
  asComponents j2 = Return rows ->
  j1 = j2.
Proof.
  intros H1 H2.
  destruct (asComponents_returned j1 rows H1) as (c1 & Hr1 & Ha1 & Hrows1).
  destruct (asComponents_returned j2 rows H2) as (c2 & Hr2 & Ha2 & Hrows2).
  destruct j1 as [m1 a1], j2 as [m2 a2]. simpl in Ha1, Ha2. subst a1 a2.
  rewrite Hrows1 in Hrows2. unfold journal_rows in Hrows2.
  cbn [map] in Hrows2. injection Hrows2. intros.
  assert (c1 = c2) as ->.
  { repeat match goal with
           | H : (_ =? _) = (_ =? _) |- _ => revert H
           end.
    assert (c1 = 1 \/ c1 = 2 \/ c1 = 3) as [->|[->| ->]] by lia;
      assert (c2 = 1 \/ c2 = 2 \/ c2 = 3) as [->|[->| ->]] by lia;
      simpl; congruence. }
  f_equal. apply states_by_get. intros id.
  destruct id; simpl; apply style_state; assumption.
Qed.

Lemma asComponents_injective_witness :
  asComponents new_Journal = Return (journal_rows new_Journal 3)
  /\ new_Journal = mkJournal all_indefinite (Num 3).
Proof.
  split; [reflexivity|].
  apply (asComponents_injective new_Journal (mkJournal all_indefinite (Num 3))
           (journal_rows new_Journal 3)); reflexivity.
Defined.

(** X7. When [asComponents] returns, the buttons of its rows, in order,
    are one per evidence id in the order of [EVIDENCE_IDS]: chunking loses
    and repeats none.  Each is primary, secondary or danger as its evidence
    is present, indefinite or absent. *)
Theorem asComponents_buttons (this : Journal) (rows : list ActionRowBuilder) :
  asComponents this = Return rows ->
  map customId (buttons_of rows) = EVIDENCE_IDS
  /\ forall b, In b (buttons_of rows) ->
       label b = LABELS (customId b)
       /\ style b
          = match get (evidences this) (customId b) with
            | PRESENT => Primary
            | INDEFINITE => Secondary
            | ABSENT => Danger
            end.
Proof.
  intros Hrows.
  destruct (asComponents_returned this rows Hrows) as (c & _ & _ & ->).
  split; [reflexivity|].
  intros b Hb. simpl in Hb.
  repeat (destruct Hb as [<-|Hb];
          [unfold evidence_button; simpl;
           match goal with
           | |- context [EvidenceState_beq ?s PRESENT] => destruct s
           end; split; reflexivity|]).
  contradiction.
Qed.

Lemma asComponents_buttons_witness :
  asComponents new_Journal = Return (journal_rows new_Journal 3)
  /\ map customId (buttons_of (journal_rows new_Journal 3)) = EVIDENCE_IDS.
Proof.
  split; [reflexivity|].
  apply (proj1 (asComponents_buttons new_Journal
                  (journal_rows new_Journal 3) eq_refl)).
Defined.

(** X8. When [asComponents] returns, the menu offers "3", "2" and "1", and
    the option marked as default is the one whose value [parseInt] reads
    back as the ceiling of the journal: choosing the default option changes
    nothing. *)
Theorem asComponents_default_option (this : Journal)
    (rows : list ActionRowBuilder) :
  asComponents this = Return rows ->
  map option_value (options_of rows) = ["3"; "2"; "1"]
  /\ forall o, In o (options_of rows) ->
       (option_default o = true
        <-> parseInt (option_value o) = availableEvidences this).
Proof.
  intros Hrows.
  destruct (asComponents_returned this rows Hrows) as (c & Hc & Ha & ->).
  split; [reflexivity|].
  intros o Ho. rewrite Ha. simpl in Ho.
  assert (c = 1 \/ c = 2 \/ c = 3) as [->|[->| ->]] by lia;
    repeat (destruct Ho as [<-|Ho];
            [vm_compute; split; intros H; congruence|]);
    contradiction.
Qed.

Lemma asComponents_default_option_witness :
  asComponents new_Journal = Return (journal_rows new_Journal 3)
  /\ map option_value (options_of (journal_rows new_Journal 3))
     = ["3"; "2"; "1"].
Proof.
  split; [reflexivity|].
  apply (proj1 (asComponents_default_option new_Journal
                  (journal_rows new_Journal 3) eq_refl)).
Defined.

(** * Further properties of the command context *)

(** ** The shapes of a context *)

Lemma new_CommandContext_lifecycle (now : Z)
    (interaction : ChatInputCommandInteraction)
    (additionalUsers : list string) :
  lifecycle
    (context_after (new_CommandContext now interaction additionalUsers)).
Proof.
  unfold new_CommandContext, setup, fresh_context.
  rewrite asComponents_new_Journal.
  destruct interaction as [u [[|]|] [| |m]]; run_methods;
    first [apply lifecycle_unstarted | apply lifecycle_active].
Qed.

Lemma handle_lifecycle (this : CommandContext) (now : Z) (e : Event) :
  lifecycle this -> lifecycle (context_after (handle now e this)).
Proof.
  intros H. destruct H as [ids j t|ids j m d|ids j m];
    destruct e as [[u [id|vs]]| |]; run_methods; case_matches;
    first [apply lifecycle_unstarted | apply lifecycle_active
          | apply lifecycle_closed].
Qed.

(** X9. Every context a command can be in has one of three shapes: its
    constructor ended before it created collectors (no message, no
    collectors, no idle timeout); or it listens, and then the allowed users,
    the journal and the message are set, both collectors listen, the idle
    timeout is armed and it is not terminated; or it was terminated after
    it listened, and then both collectors are stopped and there is no idle
    timeout. *)
Theorem reachable_lifecycle (this : CommandContext) :
  reachable this -> lifecycle this.
Proof.
  induction 1 as [now interaction additionalUsers | this now e Hr IH].
  - apply new_CommandContext_lifecycle.
  - now apply handle_lifecycle.
Qed.

Lemma reachable_lifecycle_witness :
  lifecycle
    (context_after
       (handle 7 UpdateRejected
          (context_after (new_CommandContext 0 example_command ["bob"])))).
Proof.
  apply reachable_lifecycle. apply reachable_handle. apply reachable_new.
Defined.

(** ** Termination *)

Lemma listening_stopped (cs : list InteractionCollector) (t : ComponentType) :
  existsb (fun c => ComponentType_beq (componentType c) t && negb (ended c))
    (map stop cs) = false.
Proof.
  induction cs as [|c cs IH]; simpl; [reflexivity|].
  now rewrite andb_false_r.
Qed.

Lemma stop_twice (cs : list InteractionCollector) :
  map stop (map stop cs) = map stop cs.
Proof.
  induction cs as [|c cs IH]; simpl; [reflexivity|]. now rewrite IH.
Qed.

(** X10. Once [terminate] has run, on whatever context, no interaction and
    no tick of the clock has any effect: the context stays as it is,
    terminated, and nothing is asked of Discord. *)
Theorem terminated_ignores_events (this : CommandContext) (now : Z)
    (i : MessageComponentInteraction) :
  let closed := context_after (terminate this) in
  terminated_ closed = true
  /\ handle now (Interaction i) closed = (Return tt, closed, [])
  /\ handle now Tick closed = (Return tt, closed, []).
Proof.
  destruct this as [a j m cs t x].
  assert (Hl : forall ty,
             listening
               (context_after (terminate (mkContext a j m cs t x))) ty
             = false).
  { intros ty. destruct m, cs as [cs|]; run_methods; unfold listening; simpl;
      try reflexivity; apply listening_stopped. }
  split; [|split].
  - destruct m; reflexivity.
  - unfold handle, on_interaction, bind, read, ret.
    cbn beta iota. cbn [fst snd]. rewrite Hl. reflexivity.
  - destruct m; reflexivity.
Qed.

(** X11. [terminate] run a second time leaves the context as the first run
    left it, and asks of Discord what the first run asked: the deletion of
    the message, when there is one, is requested again. *)
Theorem terminate_twice (this : CommandContext) :
  context_after (terminate (context_after (terminate this)))
  = context_after (terminate this)
  /\ effects_of (terminate (context_after (terminate this)))
     = effects_of (terminate this)
  /\ (forall m, message_ this = Some m ->
        effects_of (terminate this) = [DeleteMessage m])
  /\ (message_ this = None -> effects_of (terminate this) = []).
Proof.
  destruct this as [a j m cs t x].
  repeat split.
  - destruct m, cs as [cs|]; run_methods; try reflexivity;
      now rewrite stop_twice.
  - destruct m; reflexivity.
  - intros m' Hm. simpl in Hm. subst m. reflexivity.
  - intros Hm. simpl in Hm. subst m. reflexivity.
Qed.

Lemma terminate_twice_witness :
  message_ example_context = Some (mkMessage "journal")
  /\ effects_of (terminate (context_after (terminate example_context)))
     = [DeleteMessage (mkMessage "journal")].
Proof.
  split; [reflexivity|].
  destruct (terminate_twice example_context) as (_ & Hsame & Hdelete & _).
  rewrite Hsame. apply Hdelete. reflexivity.
Defined.

Lemma handle_keeps_terminated (this : CommandContext) (now : Z) (e : Event) :
  terminated_ this = true ->
  terminated_ (context_after (handle now e this)) = true.
Proof.
  destruct this as [a j m cs t x]. simpl. intros ->.
  destruct e as [[u [id|vs]]| |]; run_methods; case_matches; reflexivity.
Qed.

(** X12. Termination is for good: whatever the context, once it is
    terminated no series of events (interactions, rejected updates, ticks)
    brings it back. *)
Theorem terminated_forever (this : CommandContext)
    (events : list (Z * Event)) :
  terminated_ this = true -> terminated_ (run events this) = true.
Proof.
  revert this. induction events as [|[now e] rest IH]; intros this Ht.
  - assumption.
  - simpl. apply IH. now apply handle_keeps_terminated.
Qed.

Lemma terminated_forever_witness :
  terminated_ (closed_context ["alice"] new_Journal (mkMessage "journal"))
  = true
  /\ terminated_
       (run [(1, press "alice" emf); (2, UpdateRejected); (3, Tick)]
          (closed_context ["alice"] new_Journal (mkMessage "journal")))
     = true.
Proof.
  split; [reflexivity|].
  apply (terminated_forever
           (closed_context ["alice"] new_Journal (mkMessage "journal"))).
  reflexivity.
Defined.

(** ** Accepted interactions *)

(** What an interaction of an allowed user does to a context that listens:
    the timeout is refreshed and the journal changed before the rendering,
    which is sent when [asComponents] returns. *)
Lemma handle_on_active (ids : list string) (j : Journal) (m : Message)
    (d now : Z) (i : MessageComponentInteraction) :
  In (user i) ids ->
  handle now (Interaction i) (active_context ids j m d)
  = match asComponents (mutated j (data i)) with
    | Return rows =>
        (Return tt,
         active_context ids (mutated j (data i)) m (now + IDLE_TIME),
         [UpdateJournal (journal_embed (mutated j (data i))) rows])
    | Throw e =>
        (Throw e,
         active_context ids (mutated j (data i)) m (now + IDLE_TIME), [])
    end.
Proof.
  intros Hin. apply existsb_eqb_In in Hin.
  destruct i as [u [id|vs]]; simpl in Hin; run_methods; rewrite Hin; simpl;
    unfold mutated, with_state; simpl;
    match goal with
    | |- context [asComponents ?x] => destruct (asComponents x)
    end; reflexivity.
Qed.

(** X13. An interaction of an allowed user on a context that listens
    changes the journal and refreshes the idle timeout first, then renders:
    when the ceiling of the changed journal is 1, 2 or 3, exactly one update
    is sent, with the embed and the rows of the journal as changed; for any
    other ceiling the change and the refresh stay, the handler throws and
    no update is sent. *)
Theorem accepted_interaction (ids : list string) (j : Journal) (m : Message)
    (d now : Z) (i : MessageComponentInteraction) :
  In (user i) ids ->
  let j' := mutated j (data i) in
  let after := active_context ids j' m (now + IDLE_TIME) in
  (forall c, availableEvidences j' = Num c -> 1 <= c <= 3 ->
     handle now (Interaction i) (active_context ids j m d)
     = (Return tt, after, [UpdateJournal (journal_embed j') (journal_rows j' c)]))
  /\ (~ valid_ceiling (availableEvidences j') ->
      handle now (Interaction i) (active_context ids j m d)
      = (Throw "TypeError: Cannot read properties of undefined", after, [])).
Proof.
  intros Hin j' after. unfold j', after.
  rewrite (handle_on_active ids j m d now i Hin). split.
  - intros c Ha Hc. now rewrite (asComponents_valid _ c Ha Hc).
  - intros Hinvalid. now rewrite (asComponents_invalid_ceiling _ Hinvalid).
Qed.

Lemma accepted_interaction_witness :
  In "bob" ["alice"; "bob"]
  /\ handle 5 (press "bob" orb)
       (active_context ["alice"; "bob"] new_Journal (mkMessage "journal") 9)
     = (Return tt,
        active_context ["alice"; "bob"] (with_state new_Journal orb PRESENT)
          (mkMessage "journal") (5 + IDLE_TIME),
        [UpdateJournal (journal_embed (with_state new_Journal orb PRESENT))
           (journal_rows (with_state new_Journal orb PRESENT) 3)]).
Proof.
  split; [simpl; tauto|].
  apply (proj1 (accepted_interaction ["alice"; "bob"] new_Journal
                  (mkMessage "journal") 9 5
                  (mkInteraction "bob" (ButtonData orb))
                  ltac:(simpl; tauto)) 3).
  - reflexivity.
  - lia.
Defined.

(** ** The idle timeout *)

(** X14. After an interaction of an allowed user at time [t0] the context
    closes one hour later and not before: a tick of the clock earlier than
    [t0 + IDLE_TIME] changes nothing, whatever deadline was set before; a
    tick at that time or later terminates the context, stops both
    collectors and requests the deletion of the message. *)
Theorem idle_expiry (ids : list string) (j : Journal) (m : Message)
    (d t0 t1 : Z) (i : MessageComponentInteraction) :
  In (user i) ids ->
  let listening_context :=
    context_after (handle t0 (Interaction i) (active_context ids j m d)) in
  idleTimeout_ listening_context = Some (mkTimeout (t0 + IDLE_TIME))
  /\ (t1 < t0 + IDLE_TIME ->
      handle t1 Tick listening_context = (Return tt, listening_context, []))
  /\ (t0 + IDLE_TIME <= t1 ->
      handle t1 Tick listening_context
      = (Return tt, closed_context ids (mutated j (data i)) m,
         [DeleteMessage m])).
Proof.
  intros Hin listening_context.
  assert (Hc : listening_context
               = active_context ids (mutated j (data i)) m (t0 + IDLE_TIME)).
  { unfold listening_context.
    rewrite (handle_on_active ids j m d t0 i Hin).
    destruct (asComponents (mutated j (data i))); reflexivity. }
  rewrite Hc. split; [reflexivity|]. split; intros Ht.
  - run_methods. apply Z.leb_gt in Ht. now rewrite Ht.
  - run_methods. apply Z.leb_le in Ht. now rewrite Ht.
Qed.

Lemma idle_expiry_witness :
  In "alice" ["alice"]
  /\ handle 3600005 Tick
       (context_after
          (handle 5 (press "alice" emf)
             (active_context ["alice"] new_Journal (mkMessage "journal") 9)))
     = (Return tt,
        closed_context ["alice"] (with_state new_Journal emf PRESENT)
          (mkMessage "journal"),
        [DeleteMessage (mkMessage "journal")]).
Proof.
  split; [simpl; tauto|].
  apply (proj2 (proj2 (idle_expiry ["alice"] new_Journal
                         (mkMessage "journal") 9 5 3600005
                         (mkInteraction "alice" (ButtonData emf))
                         ltac:(simpl; tauto)))).
  unfold IDLE_TIME. lia.
Defined.

(** ** Events the components can cause *)

Lemma mutated_valid (j : Journal) (i : MessageComponentInteraction) :
  valid_ceiling (availableEvidences j) ->
  offered (Interaction i) ->
  valid_ceiling (availableEvidences (mutated j (data i))).
Proof.
  intros Hj Ho. destruct i as [u [id|vs]]; simpl in *; [assumption|].
  destruct Ho as (v & rest & -> & Hv). unfold valid_ceiling.
  destruct Hv as [<-|[<-|[<-|[]]]]; simpl; tauto.
Qed.

(** A handler run on an event the components can cause, with the ceiling in
    range, returns and leaves the ceiling in range. *)
Lemma handle_offered (this : CommandContext) (now : Z) (e : Event) :
  lifecycle this ->
  ceiling_in_range this ->
  offered e ->
  fst (fst (handle now e this)) = Return tt
  /\ ceiling_in_range (context_after (handle now e this)).
Proof.
  intros Hl Hr Ho. destruct Hl as [ids j t|ids j m d|ids j m].
  - destruct e as [i| |]; run_methods; split; try reflexivity; exact Hr.
  - destruct e as [i| |].
    + destruct (existsb (String.eqb (user i)) ids) eqn:Hin.
      * apply existsb_eqb_In in Hin.
        pose proof (mutated_valid j i (Hr j eq_refl) Ho) as Hv.
        fold (both_collectors false).
        destruct d as [d]. fold (active_context ids j m d).
        rewrite (handle_on_active ids j m d now i Hin).
        assert (exists c, availableEvidences (mutated j (data i)) = Num c
                          /\ 1 <= c <= 3)
          as [c [Ha Hc]]
            by (destruct Hv as [H|[H|H]]; rewrite H; eexists; split;
                try reflexivity; lia).
        rewrite (asComponents_valid _ c Ha Hc). split; [reflexivity|].
        intros j' Hj'. simpl in Hj'. injection Hj' as <-. assumption.
      * unfold handle, on_interaction, interactionFilter, canInteract, bind,
          read, call, ret. simpl.
        destruct i as [u [id|vs]]; simpl in *; rewrite Hin; simpl;
          split; try reflexivity; exact Hr.
    + run_methods. split; [reflexivity|]. exact Hr.
    + run_methods. destruct (deadline d <=? now); simpl;
        split; try reflexivity; exact Hr.
  - destruct e as [[u [id|vs]]| |]; run_methods; split; try reflexivity;
      exact Hr.
Qed.

(** X15. As long as every value chosen in the menu is one the menu offers,
    no handler of a context ever throws, from its construction on and
    whoever interacts: every event is handled to its end, and the ceiling
    of the journal stays 1, 2 or 3. *)
Theorem offered_events_never_throw (events : list (Z * Event)) (now : Z)
    (interaction : ChatInputCommandInteraction)
    (additionalUsers : list string) :
  Forall (fun e => offered (snd e)) events ->
  let this :=
    context_after (new_CommandContext now interaction additionalUsers) in
  Forall (fun r => fst r = Return tt) (trace events this)
  /\ ceiling_in_range (run events this).
Proof.
  intros Hoffered this.
  assert (Hl : lifecycle this) by apply new_CommandContext_lifecycle.
  assert (Hr : ceiling_in_range this).
  { unfold this, new_CommandContext, setup, fresh_context.
    rewrite asComponents_new_Journal.
    destruct interaction as [u [[|]|] [| |m]]; run_methods;
      intros j Hj; try discriminate; injection Hj as <-;
      right; right; reflexivity. }
  clearbody this. revert this Hl Hr.
  induction Hoffered as [|[t e] rest He Hrest IH]; intros this Hl Hr.
  - split; [constructor | assumption].
  - simpl in He. cbn [trace run].
    destruct (handle_offered this t e Hl Hr He) as [Hreturn Hr'].
    pose proof (handle_lifecycle this t e Hl) as Hl'.
    destruct (IH _ Hl' Hr') as [Htrace Hrun].
    split; [|assumption]. constructor; assumption.
Qed.

Lemma offered_events_never_throw_witness :
  Forall (fun e => offered (snd e))
    [(1, press "alice" emf);
     (2, Interaction (mkInteraction "bob" (StringSelectData ["2"])));
     (3, UpdateRejected)]
  /\ Forall (fun r => fst r = Return tt)
       (trace
          [(1, press "alice" emf);
           (2, Interaction (mkInteraction "bob" (StringSelectData ["2"])));
           (3, UpdateRejected)]
          (context_after (new_CommandContext 0 example_command ["bob"]))).
Proof.
  assert (H : Forall (fun e => offered (snd e))
                [(1, press "alice" emf);
                 (2, Interaction
                       (mkInteraction "bob" (StringSelectData ["2"])));
                 (3, UpdateRejected)]).
  { repeat constructor. simpl. exists "2", []. split; [reflexivity|].
    simpl. tauto. }
  split; [exact H|].
  apply (proj1 (offered_events_never_throw _ 0 example_command ["bob"] H)).
Defined.

(** ** Who may interact *)

Lemma compact_In {A : Type} (array : list (option A)) (a : A) :
  In a (compact array) <-> In (Some a) array.
Proof.
  induction array as [|[x|] rest IH]; simpl.
  - tauto.
  - rewrite IH. split; intros [H|H]; auto; left; congruence.
  - rewrite IH. split; [auto | intros [H|H]; [discriminate|assumption]].
Qed.

(** X16. When the command is run with the permission to view the channel
    and the reply is sent, the users who can interact with the journal are
    the user of the command and the users its options name, and no one
    else; options without a user are skipped. *)
Theorem handler_allowed_users (now : Z) (u : string) (m : Message)
    (options_data : list CommandInteractionOption) (who : string) :
  let this :=
    context_after
      (handler now (mkCommand u (Some true) (Replied m)) options_data) in
  exists allowed,
    canInteract who this = (Return allowed, this, [])
    /\ (allowed = true
        <-> who = u \/ In (Some who) (map option_user options_data)).
Proof.
  intros this.
  exists (existsb (String.eqb who) (u :: compact (map option_user options_data))).
  split.
  - unfold this, handler, new_CommandContext, setup, fresh_context.
    rewrite asComponents_new_Journal. reflexivity.
  - rewrite existsb_eqb_In. simpl. rewrite compact_In.
    split; intros [H|H]; auto.
Qed.

(** * Properties of the logger *)

Section LoggerFacts.

Variable regex_match : Z -> Z -> string -> option (list string).

(** The header a logger writes before its lines. *)
Let header (label : string) : Console * string :=
  (ConsoleLog, (ESC ++ "[1mFrom " ++ label ++ ESC ++ "[0m")%string).

(** Whether the label is the one displayed. *)
Let displayed (label : string) (st : LoggerState) : bool :=
  match currentLabel st with
  | Some current => String.eqb label current
  | None => false
  end.

(** No indentation a method asks for is negative, so the line is built. *)
Lemma splitMessage_returns (message : string) (indent lineLength : Z) :
  0 <= indent ->
  exists text, splitMessage regex_match message indent lineLength = Return text.
Proof.
  intros Hi. unfold splitMessage, repeat_space, INLABEL_INDENTATION.
  destruct (indent + 3 <? 0) eqn:E; [apply Z.ltb_lt in E; lia|].
  eexists. reflexivity.
Qed.

Lemma ensureLabel_written (label : string) (st : LoggerState) :
  ensureLabel label st
  = mkLoggerState (Some label)
      (written st ++ if displayed label st then [] else [header label]).
Proof.
  unfold ensureLabel, displayed, header.
  destruct (currentLabel st) as [current|]; simpl;
    [destruct (String.eqb label current); simpl|];
    now rewrite ?app_nil_r.
Qed.

Lemma perform_written (c : LoggerCall) (st : LoggerState) :
  exists line,
    perform regex_match c st
    = (Return tt,
       mkLoggerState (Some (call_label c))
         (written st
          ++ (if displayed (call_label c) st then [] else [header (call_label c)])
          ++ [(call_method c, line)])).
Proof.
  destruct c as [method label message]. unfold perform. simpl.
  destruct method; unfold log, warn, error; rewrite ensureLabel_written;
    match goal with
    | |- context [splitMessage regex_match message ?n 80] =>
        destruct (splitMessage_returns message n 80) as [text ->];
          [simpl; lia|]
    end;
    unfold write_line; simpl; rewrite <- app_assoc; eexists; reflexivity.
Qed.

(** X17. A call of [log], [warn] or [error] never throws and writes, after
    what was written before: the header of the logger, on [console.log],
    exactly when the label displayed last is not its own (or none was);
    then one line on the console of the method.  Afterwards its label is the
    displayed one. *)
Theorem logger_call (c : LoggerCall) (st : LoggerState) :
  exists line,
    perform regex_match c st
    = (Return tt,
       mkLoggerState (Some (call_label c))
         (written st
          ++ (match currentLabel st with
              | Some current =>
                  if String.eqb (call_label c) current then []
                  else [(ConsoleLog,
                         (ESC ++ "[1mFrom " ++ call_label c ++ ESC
                          ++ "[0m")%string)]
              | None =>
                  [(ConsoleLog,
                    (ESC ++ "[1mFrom " ++ call_label c ++ ESC
                     ++ "[0m")%string)]
              end)
          ++ [(call_method c, line)])).
Proof.
  destruct (perform_written c st) as [line H]. exists line. rewrite H.
  unfold displayed, header. destruct (currentLabel st); reflexivity.
Qed.


End LoggerFacts.
